(** * Trade matcher: wash-sale adjuster and greedy matching engine

    A shallow embedding of [app.py] (the Flask entry point) and [orders.py]
    (the terminal entry point).  The two files carry the same engine; the
    only difference in the core is the unit-price computation, which
    [app.py] guards against a zero quantity and [orders.py] does not.

    Conventions of the embedding:
    - a [datetime.date] is its proleptic ordinal, an integer number of days,
      so that [(a - b).days] is integer subtraction;
    - a Python [int] is [Z];
    - a Python [float] amount is an exact rational [Q]: rounding, infinities
      and NaN are outside the model;
    - [Trade] objects are mutable and shared between the order list and the
      [Match] objects that reference them, so the order list is an arena
      ([list Trade]) and a reference is an index into it;
    - an exception is a value of [result]. *)

From Stdlib Require Import ZArith QArith Qabs Bool Sorted Lqa.
From stdpp Require Import base list gmap strings.

Open Scope Z_scope.
Set Warnings "-clear-no-such-hyp".

(** ** Numbers *)

Definition Qlt_bool (x y : Q) : bool :=
  (Qnum x * QDen y <? Qnum y * QDen x)%Z.

(** [sum(xs)]: a left fold that starts from [0]. *)
Definition py_sum (xs : list Q) : Q := fold_left Qplus xs 0%Q.

(** [min(a, b)]: the first argument unless the second is strictly smaller. *)
Definition py_min (a b : Q) : Q := if Qlt_bool b a then b else a.

(** ** Exceptions *)

Inductive exn := ZeroDivisionError | KeyError.

Inductive result (A : Type) :=
| Ok (a : A)
| Raise (e : exn).
Arguments Ok {A} a.
Arguments Raise {A} e.

#[global] Instance result_ret : MRet result := fun A a => Ok a.
#[global] Instance result_bind : MBind result := fun A B k r =>
  match r with
  | Ok a => k a
  | Raise e => Raise e
  end.

(** ** Data model *)

(** One parsed CSV row, the dictionary built by [load_orders]. *)
Record Row := mkRow {
  r_date : Z;
  r_type : string;
  r_ticker : string;
  r_total_amount : Q;
  r_qty : Z
}.

(** [class Trade]. *)
Record Trade := mkTrade {
  date : Z;
  order_type : string;
  ticker : string;
  total_amount : Q;
  qty : Z;
  price : Q;
  original_qty : Z;
  matched_qty : Z
}.

Definition set_qty (q : Z) (t : Trade) : Trade :=
  mkTrade (date t) (order_type t) (ticker t) (total_amount t) q (price t)
          (original_qty t) (matched_qty t).

Definition set_price (p : Q) (t : Trade) : Trade :=
  mkTrade (date t) (order_type t) (ticker t) (total_amount t) (qty t) p
          (original_qty t) (matched_qty t).

Definition set_total_amount (a : Q) (t : Trade) : Trade :=
  mkTrade (date t) (order_type t) (ticker t) a (qty t) (price t)
          (original_qty t) (matched_qty t).

(** A reference to a [Trade] object: its position in the order list. *)
Abbreviation ref := nat (only parsing).

(** [class Match].  [buy] and [sell] are references; the other attributes
    are computed once, in [__init__]. *)
Record Match := mkMatch {
  buy : ref;
  sell : ref;
  m_qty : Z;
  profit : Q;
  holding_period_days : Z;
  is_wash_sale : bool
}.

(** [Match._check_wash_sale], on the two referenced trades. *)
Definition _check_wash_sale (b s : Trade) : bool :=
  (date s - date b <=? 30) && (0 <? date s - date b)
  && Qlt_bool (price s) (price b).

(** [Match.__init__(buy, sell, qty)]: [b] and [s] are the objects behind the
    references at construction time. *)
Definition Match_init (rb rs : ref) (b s : Trade) (q : Z) : Match :=
  {| buy := rb;
     sell := rs;
     m_qty := q;
     profit := ((price s - price b) * inject_Z q)%Q;
     holding_period_days := Z.abs (date s - date b);
     is_wash_sale := _check_wash_sale b s |}.

Definition is_short_term (m : Match) : bool := holding_period_days m <=? 365.
Definition is_long_term (m : Match) : bool := 365 <? holding_period_days m.

(** ** Objective functions *)

Definition objective_profit (matches : list Match) : Q :=
  py_sum (map profit matches).
Definition objective_loss (matches : list Match) : Q :=
  (- py_sum (map profit matches))%Q.
Definition objective_short_term_profit (matches : list Match) : Q :=
  py_sum (map profit (List.filter is_short_term matches)).
Definition objective_long_term_profit (matches : list Match) : Q :=
  py_sum (map profit (List.filter is_long_term matches)).
Definition objective_short_term_loss (matches : list Match) : Q :=
  (- py_sum (map profit (List.filter is_short_term matches)))%Q.
Definition objective_long_term_loss (matches : list Match) : Q :=
  (- py_sum (map profit (List.filter is_long_term matches)))%Q.
Definition objective_minimal_loss (matches : list Match) : Q :=
  Qabs (py_min 0 (py_sum (map profit matches))).

Definition objective := list Match -> Q.

(** [strategy_map]: key, display name, objective, in the order of the
    dictionary literal. *)
Definition strategy_map : list (string * (string * objective)) :=
  [ ("1", ("最大化利润", objective_profit));
    ("2", ("最大化亏损", objective_loss));
    ("3", ("最大化短期利润", objective_short_term_profit));
    ("4", ("最大化长期利润", objective_long_term_profit));
    ("5", ("最大化短期亏损", objective_short_term_loss));
    ("6", ("最大化长期亏损", objective_long_term_loss));
    ("7", ("最小化亏损（靠近0）", objective_minimal_loss)) ].

(** [strategy_map[key]]. *)
Fixpoint strategy_get (m : list (string * (string * objective))) (key : string)
  : result (string * objective) :=
  match m with
  | [] => Raise KeyError
  | (k, v) :: m' => if bool_decide (k = key) then Ok v else strategy_get m' key
  end.

(** [key in strategy_map]. *)
Definition strategy_mem (key : string) : bool :=
  bool_decide (key ∈ map fst strategy_map).

(** ** Sorting

    [list.sort(key=...)] and [sorted(..., key=...)] are stable and compare
    keys with [<] only.  Insertion from the right reproduces that order: an
    element moves in front of everything that is not strictly smaller. *)

Section Sort.
Context {A K : Type} (lt : K -> K -> bool) (key : A -> K).

Fixpoint insert_by (x : A) (l : list A) : list A :=
  match l with
  | [] => [x]
  | y :: l' =>
      if lt (key y) (key x) then y :: insert_by x l' else x :: y :: l'
  end.

Definition sorted_by (l : list A) : list A := foldr insert_by [] l.

(** [le_key a b]: [b] is not strictly before [a]. *)
Definition le_key (a b : A) : Prop := lt (key b) (key a) = false.
End Sort.

(** ** Trade matching engine *)

(** The order list with the identity of each object made explicit. *)
Definition enumerate (orders : list Trade) : list (ref * Trade) :=
  imap (fun i o => (i, o)) orders.

Definition is_buy (p : ref * Trade) : bool := bool_decide (order_type p.2 = "buy").
Definition is_sell (p : ref * Trade) : bool := bool_decide (order_type p.2 = "sell").

Definition buys_of (orders : list Trade) : list (ref * Trade) :=
  sorted_by Z.ltb (fun p => date p.2) (List.filter is_buy (enumerate orders)).
Definition sells_of (orders : list Trade) : list (ref * Trade) :=
  sorted_by Z.ltb (fun p => date p.2) (List.filter is_sell (enumerate orders)).

(** The condition of the inner loop of candidate generation. *)
Definition can_pair (s b : Trade) : bool :=
  bool_decide (ticker s = ticker b) && (0 <? qty s) && (0 <? qty b)
  && (date b <=? date s).

(** Phase 1: [all_matches]. *)
Definition candidates (orders : list Trade) : list Match :=
  flat_map (fun s =>
    flat_map (fun b =>
      if can_pair s.2 b.2
      then [Match_init b.1 s.1 b.2 s.2 (Z.min (qty s.2) (qty b.2))]
      else [])
      (buys_of orders))
    (sells_of orders).

(** The state of the selection loop. *)
Record Sel := mkSel {
  heap : list Trade;
  res : list Match;
  used_buy : gset ref;
  used_sell : gset ref
}.

Definition dec_qty (q : Z) (t : Trade) : Trade := set_qty (qty t - q) t.

(** One iteration of the selection loop on candidate [m].  The two
    decrements go through the arena one after the other, as the two
    assignments do.  A candidate always references objects of the arena
    ([candidates_in_range] below), so the last branch is never taken. *)
Definition select_step (st : Sel) (m : Match) : Sel :=
  if bool_decide (buy m ∈ used_buy st) || bool_decide (sell m ∈ used_sell st)
  then st
  else
    match heap st !! buy m, heap st !! sell m with
    | Some b, Some s =>
        let q := Z.min (qty b) (qty s) in
        let match_ := Match_init (buy m) (sell m) b s q in
        {| heap := alter (dec_qty q) (sell m) (alter (dec_qty q) (buy m) (heap st));
           res := res st ++ [match_];
           used_buy := used_buy st ∪ {[buy m]};
           used_sell := used_sell st ∪ {[sell m]} |}
    | _, _ => st
    end.

(** The key of the final [sorted]: [-strategy_func([m])]. *)
Definition rank (strategy_func : objective) (m : Match) : Q :=
  (- strategy_func [m])%Q.

(** The order in which the selection loop visits the candidates. *)
Definition selection_order (orders : list Trade) (strategy_func : objective)
  : list Match :=
  sorted_by Qlt_bool (rank strategy_func) (candidates orders).

Definition select (orders : list Trade) (strategy_func : objective) : Sel :=
  fold_left select_step (selection_order orders strategy_func)
    (mkSel orders [] ∅ ∅).

(** [generate_matches(orders, strategy_func)]: the returned list, and the
    order list as the call leaves it. *)
Definition generate_matches (orders : list Trade) (strategy_func : objective)
  : list Match * list Trade :=
  let st := select orders strategy_func in (res st, heap st).


(** ** Match summary *)


(** ** Wash-sale adjuster *)

(** An entry of [ticker_buys[ticker]]: the dictionary [buy]. *)
Record Lot := mkLot {
  lot_date : Z;
  lot_ticker : string;
  lot_qty : Z;
  lot_price : Q;
  orig_total : Q;
  adjusted : bool
}.

(** An entry of [wash_sales]. *)
Record WashSale := mkWashSale {
  ws_ticker : string;
  sell_date : Z;
  buy_date : Z;
  adjustment_per_unit : Q;
  ws_qty : Z;
  total_adjustment : Q;
  old_price : Q;
  new_price : Q
}.

(** The state of the loop over the records. *)
Record Wash := mkWash {
  ticker_buys : gmap string (list Lot);
  wash_sales : list WashSale
}.

(** [0 < days_diff <= 30 and not buy['adjusted']] *)
Definition eligible (date : Z) (buy : Lot) : bool :=
  (0 <? date - lot_date buy) && (date - lot_date buy <=? 30)
  && negb (adjusted buy).

(** The three assignments to [buy] under [if loss_per_unit > 0]. *)
Definition adjust_lot (adjustment : Q) (buy : Lot) : Lot :=
  {| lot_date := lot_date buy;
     lot_ticker := lot_ticker buy;
     lot_qty := lot_qty buy;
     lot_price := (lot_price buy + adjustment)%Q;
     orig_total := (orig_total buy + adjustment * inject_Z (lot_qty buy))%Q;
     adjusted := true |}.

(** The dictionary appended to [wash_sales]; [buy] is the lot before the
    assignments. *)
Definition wash_event (ticker : string) (date : Z) (adjustment : Q) (buy : Lot)
  : WashSale :=
  {| ws_ticker := ticker;
     sell_date := date;
     buy_date := lot_date buy;
     adjustment_per_unit := adjustment;
     ws_qty := lot_qty buy;
     total_adjustment := (adjustment * inject_Z (lot_qty buy))%Q;
     old_price := lot_price buy;
     new_price := (lot_price buy + adjustment)%Q |}.

(** [for buy in ticker_buys[ticker]: ...] for one sell record: the lots
    after the loop, and the event if one was appended.  The [break] sits
    under [if loss_per_unit > 0]. *)
Fixpoint scan_lots (ticker : string) (date : Z) (price : Q) (lots : list Lot)
  : list Lot * option WashSale :=
  match lots with
  | [] => ([], None)
  | buy :: rest =>
      if eligible date buy then
        let loss_per_unit := (lot_price buy - price)%Q in
        if Qlt_bool 0 loss_per_unit then
          (adjust_lot loss_per_unit buy :: rest,
           Some (wash_event ticker date loss_per_unit buy))
        else
          let r := scan_lots ticker date price rest in (buy :: r.1, r.2)
      else
        let r := scan_lots ticker date price rest in (buy :: r.1, r.2)
  end.

(** [ticker_buys[ticker]] on a [defaultdict(list)]. *)
Definition lots_of (tb : gmap string (list Lot)) (ticker : string) : list Lot :=
  default [] (tb !! ticker).

(** The body of the loop over the records, once [price] is computed. *)
Definition wash_step (price : Q) (st : Wash) (record : Row) : Wash :=
  let ticker := r_ticker record in
  if bool_decide (r_type record = "buy") then
    let buy := mkLot (r_date record) ticker (r_qty record) price
                     (r_total_amount record) false in
    mkWash (<[ticker := lots_of (ticker_buys st) ticker ++ [buy]]> (ticker_buys st))
           (wash_sales st)
  else if bool_decide (r_type record = "sell") then
    let r := scan_lots ticker (r_date record) price
                       (lots_of (ticker_buys st) ticker) in
    mkWash (<[ticker := r.1]> (ticker_buys st))
           (wash_sales st ++ option_list r.2)
  else st.

Definition wash_init : Wash := mkWash ∅ [].

(** The inner loop of [load_orders]: every matching adjustment overwrites
    the price, so the last one stays. *)
Definition apply_adjustments (wash_sales : list WashSale) (trade : Trade) : Trade :=
  fold_left (fun trade ws =>
    if bool_decide (order_type trade = "buy")
       && bool_decide (ticker trade = ws_ticker ws)
       && (date trade =? buy_date ws)
    then
      let trade := set_price (new_price ws) trade in
      set_total_amount (price trade * inject_Z (qty trade))%Q trade
    else trade) wash_sales trade.

(** [strategy = strategy or "1"]: [None] and the empty string are falsy. *)
Definition or_default (strategy : option string) : string :=
  match strategy with
  | None => "1"
  | Some s => if bool_decide (s = "") then "1" else s
  end.

(** [if strategy not in strategy_map: strategy = "1"] *)
Definition resolve (strategy : string) : string :=
  if strategy_mem strategy then strategy else "1".

(** ** [str.strip]

    A Python [str] is modelled by its UTF-8 encoding.  [str.strip()] removes
    from both ends the characters [str.isspace] accepts: U+0009 to U+000D,
    U+001C to U+0020, U+0085, U+00A0, U+1680, U+2000 to U+200A, U+2028,
    U+2029, U+202F, U+205F and U+3000. *)

Definition utf8 (bytes : list nat) : string :=
  foldr (fun n s => String (Ascii.ascii_of_nat n) s) EmptyString bytes.

Definition py_whitespace : list string :=
  map utf8
    [ [9%nat]; [10%nat]; [11%nat]; [12%nat]; [13%nat];
      [28%nat]; [29%nat]; [30%nat]; [31%nat]; [32%nat];
      [194; 133]%nat; [194; 160]%nat; [225; 154; 128]%nat;
      [226; 128; 128]%nat; [226; 128; 129]%nat; [226; 128; 130]%nat;
      [226; 128; 131]%nat; [226; 128; 132]%nat; [226; 128; 133]%nat;
      [226; 128; 134]%nat; [226; 128; 135]%nat; [226; 128; 136]%nat;
      [226; 128; 137]%nat; [226; 128; 138]%nat;
      [226; 128; 168]%nat; [226; 128; 169]%nat; [226; 128; 175]%nat;
      [226; 129; 159]%nat; [227; 128; 128]%nat ].

(** [s] without its prefix [p], when it has it. *)
Fixpoint drop_prefix (p s : string) : option string :=
  match p, s with
  | EmptyString, _ => Some s
  | String a p', String b s' =>
      if bool_decide (a = b) then drop_prefix p' s' else None
  | String _ _, EmptyString => None
  end.

(** [s] without one leading character of [chars], when it starts with one. *)
Fixpoint drop_one (chars : list string) (s : string) : option string :=
  match chars with
  | [] => None
  | c :: chars' =>
      match drop_prefix c s with
      | Some s' => Some s'
      | None => drop_one chars' s
      end
  end.

Fixpoint lstrip_chars (fuel : nat) (chars : list string) (s : string) : string :=
  match fuel with
  | O => s
  | S fuel' =>
      match drop_one chars s with
      | Some s' => lstrip_chars fuel' chars s'
      | None => s
      end
  end.

(** [s.lstrip()]: every step removes at least one byte, so the length of
    [s] is enough fuel. *)
Definition py_lstrip (s : string) : string :=
  lstrip_chars (String.length s) py_whitespace s.

(** [s.rstrip()]: the same from the other end, on the reversed encodings. *)
Definition py_rstrip (s : string) : string :=
  String.rev
    (lstrip_chars (String.length s) (map String.rev py_whitespace)
                  (String.rev s)).

(** [s.strip()] *)
Definition py_strip (s : string) : string := py_rstrip (py_lstrip s).

(** ** [app.py] *)

Module App.

(** [total / qty if qty != 0 else 0.0] *)
Definition unit_price (total : Q) (qty : Z) : Q :=
  if negb (qty =? 0) then (total / inject_Z qty)%Q else 0%Q.

(** [Trade.__init__] *)
Definition Trade_init (date : Z) (order_type ticker : string)
           (total_amount : Q) (qty : Z) : Trade :=
  {| date := date; order_type := order_type; ticker := ticker;
     total_amount := total_amount; qty := qty;
     price := unit_price total_amount qty;
     original_qty := qty; matched_qty := 0 |}.

Definition wash_run (st : Wash) (records : list Row) : Wash :=
  fold_left (fun st record =>
    wash_step (unit_price (r_total_amount record) (r_qty record)) st record)
    records st.

Definition apply_wash_sale (records : list Row) : list WashSale :=
  wash_sales (wash_run wash_init records).

(** [load_orders] and [load_orders_from_stream], after the rows are parsed. *)
Definition load_orders (records : list Row) : list Trade :=
  let wash_sales := apply_wash_sale records in
  map (fun r =>
    apply_adjustments wash_sales
      (Trade_init (r_date r) (r_type r) (r_ticker r) (r_total_amount r) (r_qty r)))
    records.

(** The adjuster followed by the engine, under a fixed objective. *)
Definition pipeline (records : list Row) (strategy_func : objective)
  : list Match :=
  (generate_matches (load_orders records) strategy_func).1.

(** [process], from the parsed rows and the form field to [matches]. *)
Definition process (strategy : option string) (records : list Row)
  : result (list Match) :=
  let strategy := resolve (or_default strategy) in
  nf ← strategy_get strategy_map strategy;
  Ok (pipeline records nf.2).

End App.

(** ** [orders.py] *)

Module Orders.

(** [total / qty] *)
Definition unit_price (total : Q) (qty : Z) : result Q :=
  if qty =? 0 then Raise ZeroDivisionError else Ok (total / inject_Z qty)%Q.

(** [Trade.__init__] *)
Definition Trade_init (date : Z) (order_type ticker : string)
           (total_amount : Q) (qty : Z) : result Trade :=
  price ← unit_price total_amount qty;
  Ok {| date := date; order_type := order_type; ticker := ticker;
        total_amount := total_amount; qty := qty; price := price;
        original_qty := qty; matched_qty := 0 |}.

Fixpoint wash_run (st : Wash) (records : list Row) : result Wash :=
  match records with
  | [] => Ok st
  | record :: rest =>
      price ← unit_price (r_total_amount record) (r_qty record);
      wash_run (wash_step price st record) rest
  end.

Definition apply_wash_sale (records : list Row) : result (list WashSale) :=
  st ← wash_run wash_init records; Ok (wash_sales st).

Fixpoint build_orders (wash_sales : list WashSale) (records : list Row)
  : result (list Trade) :=
  match records with
  | [] => Ok []
  | r :: rest =>
      trade ← Trade_init (r_date r) (r_type r) (r_ticker r)
                         (r_total_amount r) (r_qty r);
      orders ← build_orders wash_sales rest;
      Ok (apply_adjustments wash_sales trade :: orders)
  end.

(** [load_orders], after the rows are parsed. *)
Definition load_orders (records : list Row) : result (list Trade) :=
  wash_sales ← apply_wash_sale records;
  build_orders wash_sales records.

Definition pipeline (records : list Row) (strategy_func : objective)
  : result (list Match) :=
  orders ← load_orders records;
  Ok (generate_matches orders strategy_func).1.

(** [main], from the parsed rows and the line typed at the strategy prompt
    to the first [matches]; the manual adjustment loop that follows is
    [adjust_match].  [None] stands for the run that prints the read error
    and returns: [main] catches every exception of [load_orders].  The key
    is the typed line stripped. *)
Definition main (typed : string) (records : list Row)
  : result (option (list Match)) :=
  match load_orders records with
  | Raise _ => Ok None
  | Ok orders =>
      let selected := py_strip typed in
      let selected := resolve selected in
      nf ← strategy_get strategy_map selected;
      Ok (Some (generate_matches orders nf.2).1)
  end.

End Orders.

(** ** [orders.py]: manual adjustment of a match *)

(** The position [l[i]] reads in a Python list: [i] itself from the front,
    [len(l) + i] for a negative [i], and [None] for [IndexError]. *)
Definition py_index {A} (l : list A) (i : Z) : option nat :=
  let n := Z.of_nat (length l) in
  if (0 <=? i) && (i <? n) then Some (Z.to_nat i)
  else if (- n <=? i) && (i <? 0) then Some (Z.to_nat (n + i))
  else None.

Definition inc_qty (q : Z) (t : Trade) : Trade := set_qty (qty t + q) t.

(** The first [try] block of [adjust_match]: the typed number ([None] when
    it is not an integer), and the position and match it selects. *)
Definition select_match (matches : list Match) (choice_in : option Z)
  : option (nat * Match) :=
  c ← choice_in;
  k ← py_index matches (c - 1);
  m ← matches !! k;
  Some (k, m).

(** [m.buy.qty += m.qty; sell.qty += m.qty] *)
Definition rollback (m : Match) (orders : list Trade) : list Trade :=
  alter (inc_qty (m_qty m)) (sell m) (alter (inc_qty (m_qty m)) (buy m) orders).

(** The buys offered for [sell], sorted by date. *)
Definition buy_candidates (orders : list Trade) (sell : Trade)
  : list (ref * Trade) :=
  sorted_by Z.ltb (fun p => date p.2)
    (List.filter (fun p : ref * Trade =>
       bool_decide (order_type p.2 = "buy")
       && bool_decide (ticker p.2 = ticker sell)
       && (0 <? qty p.2) && (date p.2 <=? date sell))
       (enumerate orders)).

(** The second [try] block: the two typed numbers, the buy selected among
    the candidates and the quantity asked for. *)
Definition pick_buy (candidates : list (ref * Trade))
           (new_choice_in new_qty_in : option Z) : option (ref * Trade * Z) :=
  new_choice ← new_choice_in;
  new_qty ← new_qty_in;
  p ← py_index candidates (new_choice - 1);
  new_buy ← candidates !! p;
  Some (new_buy, new_qty).

Definition msg_invalid : string := "输入无效。".
Definition msg_updated : string := "匹配已更新。".

(** [adjust_match(matches, orders)] on the three typed inputs: the match
    list and the order list as the call leaves them, and the last message
    printed.  A reference of a match always points into the order list, so
    the branch for a missing sell object is never taken. *)
Definition adjust_match (matches : list Match) (orders : list Trade)
           (choice_in new_choice_in new_qty_in : option Z)
  : list Match * list Trade * string :=
  match select_match matches choice_in with
  | None => (matches, orders, msg_invalid)
  | Some (choice, m) =>
      let orders := rollback m orders in
      match orders !! sell m with
      | None => (matches, orders, msg_invalid)
      | Some sell_ =>
          let candidates := buy_candidates orders sell_ in
          match pick_buy candidates new_choice_in new_qty_in with
          | None => (matches, orders, msg_invalid)
          | Some (rb, new_buy, new_qty) =>
              let new_qty := Z.min (Z.min new_qty (qty sell_)) (qty new_buy) in
              let new_match := Match_init rb (sell m) new_buy sell_ new_qty in
              let orders :=
                alter (dec_qty new_qty) (sell m)
                      (alter (dec_qty new_qty) rb orders) in
              (<[choice := new_match]> matches, orders, msg_updated)
          end
      end
  end.

(** ** Vocabulary of the statements *)

(** A candidate pairs a buy object and a sell object of the order list that
    passed the test of the generation loop. *)
Definition valid_cand (orders : list Trade) (m : Match) : Prop :=
  exists b s,
    orders !! buy m = Some b /\ orders !! sell m = Some s /\
    order_type b = "buy" /\ order_type s = "sell" /\ can_pair s b = true.

(** The invariant of the selection loop, relative to the order list the
    call received. *)
Record sel_inv (orders : list Trade) (st : Sel) : Prop := {
  inv_len : length (heap st) = length orders;
  inv_frame : forall i t, orders !! i = Some t ->
    exists t', heap st !! i = Some t' /\ t' = set_qty (qty t') t /\
      (i ∉ used_buy st -> i ∉ used_sell st -> qty t' = qty t) /\
      (0 <= qty t -> 0 <= qty t' <= qty t);
  inv_used_buy : forall i, i ∈ used_buy st <-> i ∈ buy <$> res st;
  inv_used_sell : forall i, i ∈ used_sell st <-> i ∈ sell <$> res st;
  inv_buy_type : forall i, i ∈ used_buy st ->
    exists t, orders !! i = Some t /\ order_type t = "buy";
  inv_sell_type : forall i, i ∈ used_sell st ->
    exists t, orders !! i = Some t /\ order_type t = "sell";
  inv_nodup_buy : NoDup (buy <$> res st);
  inv_nodup_sell : NoDup (sell <$> res st);
  inv_res : forall m, m ∈ res st -> exists b s,
    orders !! buy m = Some b /\ orders !! sell m = Some s /\
    order_type b = "buy" /\ order_type s = "sell" /\
    ticker s = ticker b /\ date b <= date s /\
    0 < m_qty m /\ m_qty m <= qty b /\ m_qty m <= qty s
}.

(** A lot the scan adjusts when it reaches it: inside the 30-day window,
    not adjusted yet, and bought above the sell price. *)
Definition adjustable (date : Z) (price : Q) (buy : Lot) : Prop :=
  eligible date buy = true /\ Qlt_bool 0 (lot_price buy - price) = true.

#[global] Instance adjustable_dec (date : Z) (price : Q) (buy : Lot) :
  Decision (adjustable date price buy).
Proof. unfold adjustable. apply _. Defined.

#[global] Instance Q_eq_dec : EqDecision Q.
Proof. solve_decision. Defined.

#[global] Instance Lot_eq_dec : EqDecision Lot.
Proof. solve_decision. Defined.

(** The [i]-th lot appended for [ticker], if there is one. *)
Definition lot_at (st : Wash) (ticker : string) (i : nat) : option Lot :=
  lots_of (ticker_buys st) ticker !! i.

(** Two ways to observe an adjustment between two states of a lot: any
    change at all, and a strictly higher price. *)
Definition lot_changed (before after : Lot) : bool :=
  bool_decide (before <> after).
Definition price_raised (before after : Lot) : bool :=
  Qlt_bool (lot_price before) (lot_price after).

(** The number of records of [records], processed from state [st], whose
    step is observed by [chg] on the [i]-th lot of [ticker]. *)
Fixpoint count_changes (chg : Lot -> Lot -> bool) (ticker : string) (i : nat)
         (st : Wash) (records : list Row) : nat :=
  match records with
  | [] => 0
  | record :: rest =>
      let st' :=
        wash_step (App.unit_price (r_total_amount record) (r_qty record))
                  st record in
      ((match lot_at st ticker i, lot_at st' ticker i with
        | Some a, Some b => if chg a b then 1 else 0
        | _, _ => 0
        end) + count_changes chg ticker i st' rest)%nat
  end.

(** No record has a zero quantity. *)
Definition all_nonzero_qty (records : list Row) : bool :=
  forallb (fun r => negb (r_qty r =? 0)) records.

(** A candidate as the generation loop builds it: the [Match] of a sell and
    a buy of the order list that pass the test, for the smaller of the two
    quantities. *)
Definition exact_cand (orders : list Trade) (m : Match) : Prop :=
  exists b s,
    orders !! buy m = Some b /\ orders !! sell m = Some s /\
    order_type b = "buy" /\ order_type s = "sell" /\ can_pair s b = true /\
    m = Match_init (buy m) (sell m) b s (Z.min (qty s) (qty b)).

(** The quantity match [m] takes from the object behind reference [r]. *)
Definition stake (r : nat) (m : Match) : Z :=
  (if bool_decide (buy m = r) then m_qty m else 0)
  + (if bool_decide (sell m = r) then m_qty m else 0).

(** The quantity the matches of a list take from the object behind [r]. *)
Definition matched_total (r : nat) (matches : list Match) : Z :=
  foldr (fun m acc => stake r m + acc) 0 matches.

(** [orders[r].qty], and 0 outside the list. *)
Definition qty_at (orders : list Trade) (r : nat) : Z :=
  from_option qty 0 (orders !! r).

(** What an entry of [wash_sales] records: a positive adjustment, the new
    price above the old one by it, the total over the lot's quantity, and a
    sell 1 to 30 days after the buy. *)
Definition event_ok (ws : WashSale) : Prop :=
  (0 < adjustment_per_unit ws)%Q /\
  new_price ws = (old_price ws + adjustment_per_unit ws)%Q /\
  total_adjustment ws = (adjustment_per_unit ws * inject_Z (ws_qty ws))%Q /\
  0 < sell_date ws - buy_date ws <= 30.

Definition is_sell_row (r : Row) : bool := bool_decide (r_type r = "sell").
Definition is_buy_row (r : Row) : bool := bool_decide (r_type r = "buy").




(** The event whose new price [load_orders] leaves on the trade of a
    record: the last event of the record's ticker and date when the record
    is a buy, none otherwise. *)
Definition matches_event (r : Row) (ws : WashSale) : bool :=
  bool_decide (r_ticker r = ws_ticker ws) && (r_date r =? buy_date ws).

Definition winning_event (events : list WashSale) (r : Row) : option WashSale :=
  if bool_decide (r_type r = "buy")
  then last (List.filter (matches_event r) events)
  else None.

(** How [load_orders] builds the trade of a record, given the events of the
    adjuster: everything but the price and the total comes from the record;
    without a winning event the trade has the record's unit price and
    total; with one it has the event's new price, and that price times the
    quantity as total. *)
Definition built_from (events : list WashSale) (r : Row) (t : Trade) : Prop :=
  date t = r_date r /\ order_type t = r_type r /\ ticker t = r_ticker r /\
  qty t = r_qty r /\ original_qty t = r_qty r /\ matched_qty t = 0 /\
  match winning_event events r with
  | None =>
      price t = App.unit_price (r_total_amount r) (r_qty r) /\
      total_amount t = r_total_amount r
  | Some ws =>
      price t = new_price ws /\
      total_amount t = (new_price ws * inject_Z (r_qty r))%Q
  end.

(** The quantities that convert to a float.  [total / qty] and
    [price * qty] convert the integer quantity, which raises
    [OverflowError] beyond the float range; the rational model has no such
    conversion, so a statement that compares outcomes of the two entry
    points is made for quantities in range. *)
Definition in_float_range (records : list Row) : Prop :=
  Forall (fun r => Z.abs (r_qty r) < 2 ^ 1023) records.

(** Two order lists that differ at most in the remaining quantities. *)
Definition qty_only (orders orders' : list Trade) : Prop :=
  Forall2 (fun t t' => t' = set_qty (qty t') t) orders orders'.

(** * Properties *)

(** ** Facts on the rationals *)

Lemma Qlt_bool_iff (x y : Q) : Qlt_bool x y = true <-> (x < y)%Q.
Proof. unfold Qlt_bool, Qlt. apply Z.ltb_lt. Qed.

Lemma Qlt_bool_false (x y : Q) : Qlt_bool x y = false <-> (y <= x)%Q.
Proof.
  unfold Qlt_bool, Qle. rewrite Z.ltb_ge. reflexivity.
Qed.

Lemma Qlt_bool_proper (x x' y y' : Q) :
  (x == x')%Q -> (y == y')%Q -> Qlt_bool x y = Qlt_bool x' y'.
Proof.
  intros Hx Hy.
  destruct (Qlt_bool x y) eqn:E, (Qlt_bool x' y') eqn:E'; try reflexivity.
  - apply Qlt_bool_iff in E. apply Qlt_bool_false in E'.
    rewrite Hx, Hy in E. exfalso. exact (Qlt_not_le _ _ E E').
  - apply Qlt_bool_iff in E'. apply Qlt_bool_false in E.
    rewrite Hx, Hy in E. exfalso. exact (Qlt_not_le _ _ E' E).
Qed.

(** ** The sort *)

Section SortFacts.
Context {A K : Type} (lt : K -> K -> bool) (key : A -> K).

Lemma insert_by_perm (x : A) (l : list A) : insert_by lt key x l ≡ₚ x :: l.
Proof.
  induction l as [|y l IH]; simpl; [reflexivity|].
  destruct (lt (key y) (key x)); [|reflexivity].
  rewrite IH. apply perm_swap.
Qed.

Lemma sorted_by_perm (l : list A) : sorted_by lt key l ≡ₚ l.
Proof.
  induction l as [|x l IH]; simpl; [reflexivity|].
  rewrite insert_by_perm. by rewrite IH.
Qed.

Lemma sorted_by_In (l : list A) (x : A) : In x (sorted_by lt key l) <-> In x l.
Proof.
  rewrite <- !list_elem_of_In. by rewrite sorted_by_perm.
Qed.

(** The sort looks at the keys only through [lt]. *)
Lemma sorted_by_ext {K'} (lt' : K' -> K' -> bool) (key' : A -> K') (l : list A) :
  (forall x y, lt (key x) (key y) = lt' (key' x) (key' y)) ->
  sorted_by lt key l = sorted_by lt' key' l.
Proof.
  intros H. induction l as [|x l IH]; simpl; [reflexivity|].
  rewrite IH. generalize (sorted_by lt' key' l). intros k.
  induction k as [|y k IHk]; simpl; [reflexivity|].
  rewrite H, IHk. reflexivity.
Qed.

(** Elements that [P] puts in one class are never strictly ordered: the
    sort leaves each class in the order it came in. *)
Lemma filter_insert_by (P : A -> bool) (x : A) (l : list A) :
  (forall a b, P a = true -> P b = true -> lt (key a) (key b) = false) ->
  List.filter P (insert_by lt key x l) = List.filter P (x :: l).
Proof.
  intros HP. induction l as [|y l IH]; [reflexivity|].
  simpl insert_by. destruct (lt (key y) (key x)) eqn:E; [|reflexivity].
  simpl in *. rewrite IH.
  destruct (P x) eqn:Ex, (P y) eqn:Ey; try reflexivity.
  rewrite (HP y x Ey Ex) in E. discriminate.
Qed.

Lemma filter_sorted_by (P : A -> bool) (l : list A) :
  (forall a b, P a = true -> P b = true -> lt (key a) (key b) = false) ->
  List.filter P (sorted_by lt key l) = List.filter P l.
Proof.
  intros HP. induction l as [|x l IH]; [reflexivity|].
  simpl sorted_by. rewrite filter_insert_by by exact HP.
  simpl. by rewrite IH.
Qed.

Hypothesis lt_asym : forall a b, lt a b = true -> lt b a = false.
Hypothesis lt_cotrans :
  forall a b c, lt a c = true -> lt a b = true \/ lt b c = true.

Lemma le_key_trans (a b c : A) :
  le_key lt key a b -> le_key lt key b c -> le_key lt key a c.
Proof.
  unfold le_key. intros Hab Hbc.
  destruct (lt (key c) (key a)) eqn:E; [|reflexivity].
  destruct (lt_cotrans _ (key b) _ E); congruence.
Qed.

Lemma insert_by_sorted (x : A) (l : list A) :
  StronglySorted (le_key lt key) l -> StronglySorted (le_key lt key) (insert_by lt key x l).
Proof.
  induction 1 as [|y l Hs IH Hy]; simpl.
  - repeat constructor.
  - destruct (lt (key y) (key x)) eqn:E.
    + constructor; [exact IH|].
      rewrite Forall_forall. intros z Hz.
      rewrite insert_by_perm in Hz. apply elem_of_cons in Hz as [->|Hz].
      * apply lt_asym, E.
      * rewrite Forall_forall in Hy. apply Hy, Hz.
    + constructor; [by constructor|].
      constructor; [exact E|].
      eapply Forall_impl; [exact Hy|].
      intros z Hz. eapply le_key_trans; [exact E|exact Hz].
Qed.

Lemma sorted_by_sorted (l : list A) : StronglySorted (le_key lt key) (sorted_by lt key l).
Proof.
  induction l as [|x l IH]; simpl; [constructor|].
  by apply insert_by_sorted.
Qed.
End SortFacts.

(** ** The matching engine: invariant of the selection loop *)

Lemma enumerate_In (orders : list Trade) (p : ref * Trade) :
  In p (enumerate orders) -> orders !! p.1 = Some p.2.
Proof.
  intros H. apply list_elem_of_In in H. unfold enumerate in H.
  apply elem_of_lookup_imap in H as (i & t & -> & Ht). exact Ht.
Qed.

Lemma buys_of_In (orders : list Trade) (p : ref * Trade) :
  In p (buys_of orders) -> orders !! p.1 = Some p.2 /\ order_type p.2 = "buy".
Proof.
  unfold buys_of. rewrite sorted_by_In, filter_In. intros [H1 H2].
  split; [by apply enumerate_In|]. unfold is_buy in H2.
  by apply bool_decide_eq_true in H2.
Qed.

Lemma sells_of_In (orders : list Trade) (p : ref * Trade) :
  In p (sells_of orders) -> orders !! p.1 = Some p.2 /\ order_type p.2 = "sell".
Proof.
  unfold sells_of. rewrite sorted_by_In, filter_In. intros [H1 H2].
  split; [by apply enumerate_In|]. unfold is_sell in H2.
  by apply bool_decide_eq_true in H2.
Qed.

Lemma candidates_valid (orders : list Trade) (m : Match) :
  In m (candidates orders) -> valid_cand orders m.
Proof.
  unfold candidates. rewrite in_flat_map. intros (s & Hs & Hm).
  rewrite in_flat_map in Hm. destruct Hm as (b & Hb & Hm).
  destruct (can_pair s.2 b.2) eqn:E; [|destruct Hm].
  destruct Hm as [<-|[]].
  apply buys_of_In in Hb as [Hb1 Hb2]. apply sells_of_In in Hs as [Hs1 Hs2].
  exists b.2, s.2. simpl. auto.
Qed.

(** A candidate always references objects of the arena. *)
Lemma candidates_in_range (orders : list Trade) (m : Match) :
  In m (candidates orders) ->
  (buy m < length orders)%nat /\ (sell m < length orders)%nat.
Proof.
  intros (b & s & Hb & Hs & _)%candidates_valid.
  split; eapply lookup_lt_Some; eassumption.
Qed.

Lemma selection_order_valid (orders : list Trade) (f : objective) :
  Forall (valid_cand orders) (selection_order orders f).
Proof.
  rewrite Forall_forall. intros m Hm. apply list_elem_of_In in Hm.
  unfold selection_order in Hm. rewrite sorted_by_In in Hm.
  by apply candidates_valid.
Qed.

Lemma sel_inv_init (orders : list Trade) : sel_inv orders (mkSel orders [] ∅ ∅).
Proof.
  split; simpl; try done; try (by constructor); try set_solver.
  intros i t Ht. exists t. split; [done|]. split; [by destruct t|].
  split; [done|lia].
Qed.

Lemma can_pair_spec (s b : Trade) :
  can_pair s b = true ->
  ticker s = ticker b /\ 0 < qty s /\ 0 < qty b /\ date b <= date s.
Proof.
  unfold can_pair. rewrite !andb_true_iff, bool_decide_eq_true.
  rewrite !Z.ltb_lt, Z.leb_le. tauto.
Qed.

Lemma select_step_inv (orders : list Trade) (st : Sel) (m : Match) :
  valid_cand orders m -> sel_inv orders st -> sel_inv orders (select_step st m).
Proof.
  intros (b0 & s0 & Hb0 & Hs0 & Tb & Ts & Hp) I.
  unfold select_step.
  destruct (bool_decide (buy m ∈ used_buy st)) eqn:Eb; [done|].
  destruct (bool_decide (sell m ∈ used_sell st)) eqn:Es; [done|]. cbn [orb].
  apply bool_decide_eq_false in Eb, Es.
  assert (Hbs : buy m ∉ used_sell st).
  { intros H. destruct (inv_sell_type _ _ I _ H) as (t & Ht & Tt). congruence. }
  assert (Hsb : sell m ∉ used_buy st).
  { intros H. destruct (inv_buy_type _ _ I _ H) as (t & Ht & Tt). congruence. }
  assert (Hne : buy m <> sell m).
  { intros E. rewrite E in Hb0. congruence. }
  destruct (inv_frame _ _ I _ _ Hb0) as (b & Hb & Eqb & Qb & _).
  destruct (inv_frame _ _ I _ _ Hs0) as (s & Hs & Eqs & Qs & _).
  rewrite Hb, Hs.
  specialize (Qb Eb Hbs). specialize (Qs Hsb Es).
  apply can_pair_spec in Hp as (Htk & Hqs & Hqb & Hd).
  set (q := Z.min (qty b) (qty s)).
  split; simpl.
  - rewrite !length_alter. apply (inv_len _ _ I).
  - intros i t Ht.
    destruct (inv_frame _ _ I i t Ht) as (t' & Ht' & Et' & Qt' & Rt').
    destruct (decide (i = buy m)) as [->|Hib];
      [|destruct (decide (i = sell m)) as [->|His]].
    + exists (dec_qty q b).
      rewrite list_lookup_alter_ne, list_lookup_alter_eq, Hb by done.
      assert (t = b0) as -> by congruence.
      split; [done|]. split; [rewrite Eqb; reflexivity|].
      split; [set_solver|]. unfold dec_qty. simpl. lia.
    + exists (dec_qty q s).
      rewrite list_lookup_alter_eq, list_lookup_alter_ne, Hs by done.
      assert (t = s0) as -> by congruence.
      split; [done|]. split; [rewrite Eqs; reflexivity|].
      split; [set_solver|]. unfold dec_qty. simpl. lia.
    + exists t'. rewrite !list_lookup_alter_ne by done.
      split; [done|]. split; [done|]. split; [set_solver|done].
  - intros i. rewrite fmap_app, elem_of_app, elem_of_union.
    rewrite (inv_used_buy _ _ I). simpl. set_solver.
  - intros i. rewrite fmap_app, elem_of_app, elem_of_union.
    rewrite (inv_used_sell _ _ I). simpl. set_solver.
  - intros i [H| ->%elem_of_singleton]%elem_of_union;
      [by apply (inv_buy_type _ _ I)|eauto].
  - intros i [H| ->%elem_of_singleton]%elem_of_union;
      [by apply (inv_sell_type _ _ I)|eauto].
  - rewrite fmap_app. apply NoDup_app. split; [apply (inv_nodup_buy _ _ I)|].
    split; [|apply NoDup_singleton].
    intros x Hx. rewrite <- (inv_used_buy _ _ I) in Hx. simpl. set_solver.
  - rewrite fmap_app. apply NoDup_app. split; [apply (inv_nodup_sell _ _ I)|].
    split; [|apply NoDup_singleton].
    intros x Hx. rewrite <- (inv_used_sell _ _ I) in Hx. simpl. set_solver.
  - intros m' [H| ->%list_elem_of_singleton]%elem_of_app;
      [by apply (inv_res _ _ I)|].
    exists b0, s0. simpl. repeat split; try done; lia.
Qed.

Lemma fold_select_inv (orders : list Trade) (l : list Match) (st : Sel) :
  Forall (valid_cand orders) l -> sel_inv orders st ->
  sel_inv orders (fold_left select_step l st).
Proof.
  intros Hl. revert st.
  induction Hl as [|m l Hm _ IH]; intros st I; simpl; [exact I|].
  apply IH. by apply select_step_inv.
Qed.

Lemma select_inv (orders : list Trade) (f : objective) :
  sel_inv orders (select orders f).
Proof.
  unfold select. apply fold_select_inv.
  - apply selection_order_valid.
  - apply sel_inv_init.
Qed.

(** ** The matching engine: claims *)

(** C3.  In the list returned by [generate_matches], no trade object is the
    buy of two matches or the sell of two matches, and no object is a buy in
    one match and a sell in another.  The loop skips a candidate as soon as
    its buy or its sell was used, whatever quantity the object has left. *)
Theorem C3_trade_in_at_most_one_match (orders : list Trade) (strategy_func : objective) :
  let matches := (generate_matches orders strategy_func).1 in
  NoDup (buy <$> matches) /\ NoDup (sell <$> matches) /\
  (forall r, r ∈ buy <$> matches -> r ∉ sell <$> matches) /\
  (forall st m, buy m ∈ used_buy st \/ sell m ∈ used_sell st ->
                select_step st m = st).
Proof.
  pose proof (select_inv orders strategy_func) as I. simpl.
  split; [apply (inv_nodup_buy _ _ I)|].
  split; [apply (inv_nodup_sell _ _ I)|]. split.
  - intros r Hb Hs.
    apply (inv_used_buy _ _ I), (inv_buy_type _ _ I) in Hb as (t & Ht & Tt).
    apply (inv_used_sell _ _ I), (inv_sell_type _ _ I) in Hs as (t' & Ht' & Tt').
    congruence.
  - intros st m H. unfold select_step.
    destruct H as [H|H]; rewrite (bool_decide_eq_true_2 _ H);
      [reflexivity|apply orb_true_r || (rewrite orb_true_r; reflexivity)].
Qed.

(** A buy of 10 matched against a sell of 3 keeps 7 units, and the second
    sell of the same ticker still finds it used. *)
Example leftover_is_not_reused :
  let orders := [ mkTrade 0 "buy" "X" 100 10 10 10 0;
                  mkTrade 5 "sell" "X" 60 3 20 3 0;
                  mkTrade 6 "sell" "X" 60 4 15 4 0 ] in
  let r := generate_matches orders objective_profit in
  (fun m => (buy m, sell m, m_qty m)) <$> r.1 = [(0%nat, 1%nat, 3)] /\
  qty <$> r.2 = [7; 0; 4].
Proof. vm_compute. split; reflexivity. Qed.

(** C4, as the code has it.  A trade that enters the run with a remaining
    quantity equal to its original quantity and not negative leaves it with
    [0 <= qty <= original_qty]. *)
Theorem C4_remaining_qty_bounds (orders : list Trade) (strategy_func : objective)
    (i : nat) (t t' : Trade) :
  orders !! i = Some t ->
  qty t = original_qty t ->
  0 <= original_qty t ->
  (generate_matches orders strategy_func).2 !! i = Some t' ->
  0 <= qty t' <= original_qty t'.
Proof.
  intros Ht Hq H0 Ht'. simpl in Ht'.
  destruct (inv_frame _ _ (select_inv orders strategy_func) i t Ht)
    as (u & Hu & Eu & _ & Hr).
  assert (u = t') as -> by congruence.
  rewrite Eu. simpl. rewrite <- Hq. apply Hr. lia.
Qed.

Lemma C4_remaining_qty_bounds_witness :
  let orders := [ mkTrade 0 "buy" "X" 100 10 10 10 0;
                  mkTrade 5 "sell" "X" 60 3 20 3 0 ] in
  0 <= qty (set_qty 7 (mkTrade 0 "buy" "X" 100 10 10 10 0))
    <= original_qty (set_qty 7 (mkTrade 0 "buy" "X" 100 10 10 10 0)).
Proof.
  intros orders.
  apply (C4_remaining_qty_bounds orders objective_profit 0
           (mkTrade 0 "buy" "X" 100 10 10 10 0)).
  - reflexivity.
  - reflexivity.
  - simpl. lia.
  - vm_compute. reflexivity.
Defined.

(** C4 as stated fails on a row with a negative quantity: the trade is
    built with [qty = original_qty = -5], no candidate uses it, and the run
    leaves its quantity at [-5]. *)
Lemma C4_negative_qty_counterexample :
  let orders := [ App.Trade_init 0 "buy" "X" (-50) (-5) ] in
  let after := (generate_matches orders objective_profit).2 in
  Forall (fun t => qty t = original_qty t) orders /\
  (qty <$> after) = [-5] /\
  Exists (fun t => qty t < 0) after.
Proof.
  vm_compute. split; [|split].
  - repeat constructor.
  - reflexivity.
  - constructor. reflexivity.
Qed.

(** C8.  Every returned match references a buy and a sell of the same
    ticker with [buy.date <= sell.date], read through the references after
    the run. *)
Theorem C8_buy_not_after_sell (orders : list Trade) (strategy_func : objective)
    (m : Match) :
  let r := generate_matches orders strategy_func in
  m ∈ r.1 ->
  exists b s, r.2 !! buy m = Some b /\ r.2 !! sell m = Some s /\
    order_type b = "buy" /\ order_type s = "sell" /\
    date b <= date s /\ ticker b = ticker s.
Proof.
  pose proof (select_inv orders strategy_func) as I. simpl. intros Hm.
  destruct (inv_res _ _ I m Hm)
    as (b & s & Hb & Hs & Tb & Ts & Htk & Hd & _).
  destruct (inv_frame _ _ I _ _ Hb) as (b' & Hb' & Eb & _).
  destruct (inv_frame _ _ I _ _ Hs) as (s' & Hs' & Es & _).
  exists b', s'. split; [exact Hb'|]. split; [exact Hs'|].
  rewrite Eb, Es. simpl. repeat split; auto.
Qed.

Lemma C8_buy_not_after_sell_witness :
  let orders := [ mkTrade 0 "buy" "X" 100 10 10 10 0;
                  mkTrade 5 "sell" "X" 60 3 20 3 0 ] in
  let r := generate_matches orders objective_profit in
  exists b s, r.2 !! 0%nat = Some b /\ r.2 !! 1%nat = Some s /\
    order_type b = "buy" /\ order_type s = "sell" /\
    date b <= date s /\ ticker b = ticker s.
Proof.
  intros orders r.
  apply (C8_buy_not_after_sell orders objective_profit
           (Match_init 0 1 (mkTrade 0 "buy" "X" 100 10 10 10 0)
                           (mkTrade 5 "sell" "X" 60 3 20 3 0) 3)).
  vm_compute. apply list_elem_of_here.
Defined.

(** C10.  A run keeps the order list's length and, of every trade, the
    date, order type, ticker, price, total amount, original quantity and
    matched quantity; a trade referenced by no returned match keeps its
    quantity too. *)
Theorem C10_only_qty_of_matched_trades_changes
    (orders : list Trade) (strategy_func : objective) :
  let r := generate_matches orders strategy_func in
  length r.2 = length orders /\
  forall i t, orders !! i = Some t ->
    exists t', r.2 !! i = Some t' /\
      date t' = date t /\ order_type t' = order_type t /\
      ticker t' = ticker t /\ price t' = price t /\
      total_amount t' = total_amount t /\
      original_qty t' = original_qty t /\ matched_qty t' = matched_qty t /\
      (i ∉ buy <$> r.1 -> i ∉ sell <$> r.1 -> qty t' = qty t).
Proof.
  pose proof (select_inv orders strategy_func) as I. simpl.
  split; [apply (inv_len _ _ I)|].
  intros i t Ht.
  destruct (inv_frame _ _ I i t Ht) as (t' & Ht' & Et & Hq & _).
  exists t'. split; [exact Ht'|].
  rewrite Et at 1 2 3 4 5 6 7. simpl. repeat split.
  intros Hb Hs. apply Hq.
  - by rewrite (inv_used_buy _ _ I).
  - by rewrite (inv_used_sell _ _ I).
Qed.

(** ** The wash-sale adjuster *)

Lemma scan_lots_find (ticker : string) (date : Z) (price : Q) (lots : list Lot) :
  scan_lots ticker date price lots =
  match list_find (adjustable date price) lots with
  | Some (i, buy) =>
      (alter (adjust_lot (lot_price buy - price)) i lots,
       Some (wash_event ticker date (lot_price buy - price) buy))
  | None => (lots, None)
  end.
Proof.
  induction lots as [|buy rest IH]; [reflexivity|].
  cbn [scan_lots list_find]. fold (list_find (adjustable date price)).
  rewrite IH. destruct (decide (adjustable date price buy)) as [[El Lo]|Hn].
  - rewrite El, Lo. reflexivity.
  - assert (Hscan : forall r : list Lot * option WashSale,
      (if eligible date buy
       then if Qlt_bool 0 (lot_price buy - price)
            then (adjust_lot (lot_price buy - price) buy :: rest,
                  Some (wash_event ticker date (lot_price buy - price) buy))
            else (buy :: r.1, r.2)
       else (buy :: r.1, r.2)) = (buy :: r.1, r.2)).
    { intros r. destruct (eligible date buy) eqn:El; [|reflexivity].
      destruct (Qlt_bool 0 (lot_price buy - price)) eqn:Lo; [|reflexivity].
      destruct Hn. by split. }
    rewrite Hscan.
    destruct (list_find _ rest) as [[i b]|]; reflexivity.
Qed.

Lemma eligible_not_adjusted (date : Z) (buy : Lot) :
  eligible date buy = true -> adjusted buy = false.
Proof.
  unfold eligible. rewrite !andb_true_iff, negb_true_iff. tauto.
Qed.

(** One sell leaves a lot as it is, or finds it unadjusted and sets its
    flag. *)
Lemma scan_lots_lookup (ticker : string) (date : Z) (price : Q)
    (lots : list Lot) (i : nat) (a : Lot) :
  lots !! i = Some a ->
  exists b, (scan_lots ticker date price lots).1 !! i = Some b /\
            (b = a \/ (adjusted a = false /\ adjusted b = true)).
Proof.
  intros Ha. rewrite scan_lots_find.
  destruct (list_find _ lots) as [[j c]|] eqn:F; simpl; [|eauto].
  destruct (decide (j = i)) as [->|Hne].
  - rewrite list_lookup_alter_eq, Ha. simpl. eexists. split; [reflexivity|].
    right. apply list_find_Some in F as (Hc & [El _] & _).
    assert (c = a) as -> by congruence.
    split; [by apply eligible_not_adjusted in El|reflexivity].
  - rewrite list_lookup_alter_ne by done. eauto.
Qed.

Lemma wash_step_lot (price : Q) (st : Wash) (record : Row)
    (ticker : string) (i : nat) (a : Lot) :
  lot_at st ticker i = Some a ->
  exists b, lot_at (wash_step price st record) ticker i = Some b /\
            (b = a \/ (adjusted a = false /\ adjusted b = true)).
Proof.
  unfold lot_at, lots_of, wash_step. intros Ha.
  destruct (bool_decide (r_type record = "buy"));
    [|destruct (bool_decide (r_type record = "sell"))]; simpl; [| |eauto].
  - destruct (decide (r_ticker record = ticker)) as [->|Hne].
    + rewrite lookup_insert_eq. simpl.
      exists a. split; [|by left]. by apply lookup_app_l_Some.
    + rewrite lookup_insert_ne by done. eauto.
  - destruct (decide (r_ticker record = ticker)) as [->|Hne].
    + rewrite lookup_insert_eq. simpl. by apply scan_lots_lookup.
    + rewrite lookup_insert_ne by done. eauto.
Qed.

Section Count.
Context (chg : Lot -> Lot -> bool) (chg_refl : forall a, chg a a = false).

Lemma count_changes_adjusted (ticker : string) (i : nat) (records : list Row) :
  forall (st : Wash) (a : Lot),
    lot_at st ticker i = Some a -> adjusted a = true ->
    count_changes chg ticker i st records = 0%nat.
Proof.
  induction records as [|r rest IH]; intros st a Ha Hadj; [reflexivity|].
  cbn [count_changes].
  destruct (wash_step_lot (App.unit_price (r_total_amount r) (r_qty r))
              st r ticker i a Ha) as (b & Hb & [->|[Hf _]]); [|congruence].
  rewrite Ha, Hb, chg_refl. simpl. by apply (IH _ a).
Qed.

Lemma count_changes_le_1 (ticker : string) (i : nat) (records : list Row) :
  forall st : Wash, (count_changes chg ticker i st records <= 1)%nat.
Proof.
  induction records as [|r rest IH]; intros st; [simpl; lia|].
  cbn [count_changes].
  destruct (lot_at st ticker i) as [a|] eqn:Ha; [|apply IH].
  destruct (wash_step_lot (App.unit_price (r_total_amount r) (r_qty r))
              st r ticker i a Ha) as (b & Hb & [->|[_ Ht]]).
  - rewrite Hb, chg_refl. apply IH.
  - rewrite Hb. rewrite (count_changes_adjusted ticker i rest _ b Hb Ht).
    destruct (chg a b); simpl; lia.
Qed.
End Count.

Lemma lot_changed_refl (a : Lot) : lot_changed a a = false.
Proof. unfold lot_changed. by apply bool_decide_eq_false_2; intros []. Qed.

Lemma price_raised_refl (a : Lot) : price_raised a a = false.
Proof. unfold price_raised. apply Qlt_bool_false, Qle_refl. Qed.

(** [orders.py] runs the same loop as [app.py], and raises exactly when a
    record has a zero quantity. *)
Lemma Orders_wash_run (records : list Row) :
  forall st : Wash,
    Orders.wash_run st records =
    if all_nonzero_qty records then Ok (App.wash_run st records)
    else Raise ZeroDivisionError.
Proof.
  induction records as [|r rest IH]; intros st; [reflexivity|].
  cbn [Orders.wash_run all_nonzero_qty forallb App.wash_run fold_left].
  unfold Orders.unit_price, App.unit_price at 2.
  destruct (r_qty r =? 0); [reflexivity|]. simpl. apply IH.
Qed.

(** C1, as the code has it.  For one sell, the scan stops at the first lot
    that is inside the 30-day window, not yet adjusted, and priced above the
    sell: it adjusts that lot by the loss per unit and appends one event.
    Lots before and after it are left as they are, and when no lot
    qualifies nothing changes.  A lot inside the window whose loss per unit
    is not positive does not stop the scan. *)
Theorem C1_scan_stops_at_first_adjusted_lot
    (ticker : string) (date : Z) (price : Q) (lots : list Lot) :
  let r := scan_lots ticker date price lots in
  length r.1 = length lots /\
  match list_find (adjustable date price) lots with
  | Some (i, buy) =>
      r.1 = alter (adjust_lot (lot_price buy - price)) i lots /\
      r.2 = Some (wash_event ticker date (lot_price buy - price) buy)
  | None => r.1 = lots /\ r.2 = None
  end.
Proof.
  simpl. rewrite scan_lots_find.
  destruct (list_find _ lots) as [[i b]|]; simpl; [|done].
  by rewrite length_alter.
Qed.

(** C1 as stated fails.  The first lot inside the window has a loss per
    unit of [5 - 10 <= 0]; the scan goes on and the same sell adjusts the
    lot appended after it. *)
Lemma C1_later_lot_adjusted_counterexample :
  let lot_a := mkLot 0 "X" 1 5 5 false in
  let lot_b := mkLot 1 "X" 1 20 20 false in
  list_find (fun b => eligible 10 b = true) [lot_a; lot_b] = Some (0%nat, lot_a) /\
  (lot_price lot_a - 10 <= 0)%Q /\
  scan_lots "X" 10 10 [lot_a; lot_b]
    = ([lot_a; mkLot 1 "X" 1 30 30 true],
       Some (mkWashSale "X" 10 1 10 1 10 20 30)) /\
  App.apply_wash_sale
    [mkRow 0 "buy" "X" 5 1; mkRow 1 "buy" "X" 20 1; mkRow 10 "sell" "X" 10 1]
    = [mkWashSale "X" 10 1 10 1 10 20 30].
Proof.
  simpl. split; [reflexivity|]. split; [by vm_compute|].
  split; vm_compute; reflexivity.
Qed.

(** C2.  On a record with a zero quantity [app.py] builds the trade with a
    unit price of 0 and runs the adjuster, while [orders.py] raises
    [ZeroDivisionError] in the adjuster, in [Trade.__init__] and hence in
    [load_orders]; on any input it raises exactly when some record has a
    zero quantity. *)
Theorem C2_zero_qty_guarded_in_app_only
    (date : Z) (order_type ticker : string) (total_amount : Q)
    (records : list Row) :
  let record := mkRow date order_type ticker total_amount 0 in
  App.Trade_init date order_type ticker total_amount 0
    = mkTrade date order_type ticker total_amount 0 0 0 0 /\
  Orders.Trade_init date order_type ticker total_amount 0
    = Raise ZeroDivisionError /\
  Orders.apply_wash_sale (record :: records) = Raise ZeroDivisionError /\
  Orders.load_orders (record :: records) = Raise ZeroDivisionError /\
  Orders.apply_wash_sale records
    = if all_nonzero_qty records then Ok (App.apply_wash_sale records)
      else Raise ZeroDivisionError.
Proof.
  simpl. repeat split.
  unfold Orders.apply_wash_sale, App.apply_wash_sale.
  rewrite Orders_wash_run. by destruct (all_nonzero_qty records).
Qed.

(** C7.  Along any run of the adjuster, from any state, a given lot is
    changed by at most one record, and in particular its price is raised by
    at most one record. *)
Theorem C7_lot_adjusted_at_most_once
    (ticker : string) (i : nat) (st : Wash) (records : list Row) :
  (count_changes lot_changed ticker i st records <= 1)%nat /\
  (count_changes price_raised ticker i st records <= 1)%nat /\
  Orders.wash_run st records
    = if all_nonzero_qty records then Ok (App.wash_run st records)
      else Raise ZeroDivisionError.
Proof.
  split; [|split].
  - apply count_changes_le_1, lot_changed_refl.
  - apply count_changes_le_1, price_raised_refl.
  - apply Orders_wash_run.
Qed.

(** Two sells at a loss inside the window of one buy: the first adjusts the
    lot, the second finds the flag set. *)
Example second_sell_does_not_adjust :
  let records := [ mkRow 0 "buy" "X" 10 1;
                   mkRow 5 "sell" "X" 9 1;
                   mkRow 9 "sell" "X" 8 1 ] in
  count_changes lot_changed "X" 0 wash_init records = 1%nat /\
  App.apply_wash_sale records = [mkWashSale "X" 5 0 1 1 1 10 11].
Proof. vm_compute. split; reflexivity. Qed.

(** ** Objective functions *)

(** C9.  [objective_loss] is the negation of [objective_profit] on every
    list, and [objective_minimal_loss] is never negative. *)
Theorem C9_loss_negates_profit_and_minimal_loss_nonneg (matches : list Match) :
  objective_loss matches = (- objective_profit matches)%Q /\
  (0 <= objective_minimal_loss matches)%Q.
Proof.
  split; [reflexivity|]. unfold objective_minimal_loss. apply Qabs_nonneg.
Qed.

(** ** Strategy resolution *)

Lemma strategy_get_mem (m : list (string * (string * objective))) (key : string) :
  key ∈ map fst m -> exists nf, strategy_get m key = Ok nf.
Proof.
  induction m as [|[k v] m IH]; simpl; intros H.
  - by apply elem_of_nil in H.
  - destruct (bool_decide (k = key)) eqn:E; [eauto|].
    apply bool_decide_eq_false in E.
    apply elem_of_cons in H as [H|H]; [congruence|auto].
Qed.

Lemma resolve_found (key : string) :
  exists nf, strategy_get strategy_map (resolve key) = Ok nf.
Proof.
  unfold resolve. destruct (strategy_mem key) eqn:E.
  - apply strategy_get_mem. unfold strategy_mem in E.
    by apply bool_decide_eq_true in E.
  - eexists. reflexivity.
Qed.

Lemma resolve_unknown (key : string) :
  strategy_mem key = false -> resolve (or_default (Some key)) = "1".
Proof.
  intros H. unfold or_default.
  destruct (bool_decide (key = "")); [reflexivity|].
  unfold resolve. by rewrite H.
Qed.

(** C5.  A key outside [strategy_map], and an absent key, run the engine as
    key ["1"] does: in [app.py] on the form field as it is, in [orders.py]
    on the typed line once stripped.  Resolving a key always ends on an
    entry of [strategy_map]. *)
Theorem C5_unknown_key_runs_as_key_1 (key : string) (records : list Row) :
  strategy_mem key = false ->
  App.process (Some key) records = App.process (Some "1") records /\
  App.process None records = App.process (Some "1") records /\
  (forall typed, py_strip typed = key ->
     Orders.main typed records = Orders.main "1" records) /\
  (forall k, exists nf,
     strategy_get strategy_map (resolve (or_default k)) = Ok nf) /\
  (forall typed, exists nf,
     strategy_get strategy_map (resolve (py_strip typed)) = Ok nf).
Proof.
  intros H. split; [|split; [|split; [|split]]].
  - unfold App.process. by rewrite (resolve_unknown key H).
  - reflexivity.
  - intros typed Ht. unfold Orders.main.
    destruct (Orders.load_orders records) as [orders|e]; [|reflexivity].
    rewrite Ht. unfold resolve at 1. rewrite H. reflexivity.
  - intros k. apply resolve_found.
  - intros typed. apply resolve_found.
Qed.

Lemma C5_unknown_key_runs_as_key_1_witness :
  let records := [ mkRow 0 "buy" "X" 50 5; mkRow 31 "sell" "X" 100 5 ] in
  App.process (Some "9") records = App.process (Some "1") records /\
  App.process None records = App.process (Some "1") records /\
  (forall typed, py_strip typed = "9" ->
     Orders.main typed records = Orders.main "1" records) /\
  (forall k, exists nf,
     strategy_get strategy_map (resolve (or_default k)) = Ok nf) /\
  (forall typed, exists nf,
     strategy_get strategy_map (resolve (py_strip typed)) = Ok nf).
Proof.
  intros records. apply (C5_unknown_key_runs_as_key_1 "9" records).
  vm_compute. reflexivity.
Defined.

(** The typed line is stripped before it is looked up: [" 2 "] selects
    strategy 2 in [orders.py], and [" 9 "] falls back to strategy 1; the
    form field of [app.py] is not stripped, so [" 2 "] falls back there. *)
Example typed_key_is_stripped :
  let records := [ mkRow 0 "buy" "X" 10 1; mkRow 1 "buy" "X" 20 1;
                   mkRow 40 "sell" "X" 15 1 ] in
  py_strip " 2 " = "2" /\
  Orders.main " 2 " records = Orders.main "2" records /\
  Orders.main " 2 " records <> Orders.main "1" records /\
  Orders.main " 9 " records = Orders.main "1" records /\
  App.process (Some " 2 ") records = App.process (Some "1") records.
Proof.
  vm_compute. repeat split; try reflexivity. discriminate.
Qed.

(** A record with a zero quantity makes [load_orders] raise; [main] prints
    the error and returns without matching. *)
Example main_catches_the_read_error :
  Orders.main "1" [ mkRow 0 "buy" "X" 10 0 ] = Ok None.
Proof. reflexivity. Qed.

(** ** Determinism and tie-breaking *)

Lemma Qlt_bool_asym (a b : Q) : Qlt_bool a b = true -> Qlt_bool b a = false.
Proof.
  rewrite Qlt_bool_iff, Qlt_bool_false. apply Qlt_le_weak.
Qed.

Lemma Qlt_bool_cotrans (a b c : Q) :
  Qlt_bool a c = true -> Qlt_bool a b = true \/ Qlt_bool b c = true.
Proof.
  rewrite !Qlt_bool_iff. intros Hac.
  destruct (Qlt_le_dec a b) as [Hab|Hba]; [by left|right].
  eapply Qle_lt_trans; eassumption.
Qed.

Lemma StronglySorted_impl {A} (R S : A -> A -> Prop) (l : list A) :
  (forall a b, R a b -> S a b) -> StronglySorted R l -> StronglySorted S l.
Proof.
  intros HRS. induction 1 as [|x l _ IH Hx]; constructor; [exact IH|].
  eapply Forall_impl; [exact Hx|]. intros y. apply HRS.
Qed.

(** The selection order depends on the objective only through the values
    it takes on singleton lists. *)
Lemma selection_order_ext (orders : list Trade) (f g : objective) :
  (forall m, f [m] == g [m])%Q ->
  selection_order orders f = selection_order orders g.
Proof.
  intros H. unfold selection_order. apply sorted_by_ext.
  intros x y. unfold rank. apply Qlt_bool_proper; by rewrite H.
Qed.

Lemma generate_matches_ext (orders : list Trade) (f g : objective) :
  (forall m, f [m] == g [m])%Q ->
  generate_matches orders f = generate_matches orders g.
Proof.
  intros H. unfold generate_matches, select.
  by rewrite (selection_order_ext orders f g H).
Qed.

(** The selection order is the candidate list sorted by descending score,
    candidates of equal score staying in generation order. *)
Lemma selection_order_stable (orders : list Trade) (f : objective) :
  selection_order orders f ≡ₚ candidates orders /\
  StronglySorted (fun a b => f [b] <= f [a])%Q (selection_order orders f) /\
  forall q : Q,
    List.filter (fun m => Qeq_bool (f [m]) q) (selection_order orders f)
    = List.filter (fun m => Qeq_bool (f [m]) q) (candidates orders).
Proof.
  unfold selection_order. split; [apply sorted_by_perm|]. split.
  - eapply StronglySorted_impl;
      [|apply sorted_by_sorted; [apply Qlt_bool_asym|apply Qlt_bool_cotrans]].
    intros a b. unfold le_key, rank. rewrite Qlt_bool_false.
    intros Hle. apply Qopp_le_compat in Hle.
    by rewrite !Qopp_involutive in Hle.
  - intros q. apply filter_sorted_by. intros a b Ha Hb.
    apply Qeq_bool_iff in Ha, Hb. unfold rank.
    apply Qlt_bool_false. rewrite Ha, Hb. apply Qle_refl.
Qed.

(** A second call on the same [Trade] objects is another input: the first
    call consumed them. *)
Example rerun_on_consumed_orders :
  let orders := [ mkTrade 0 "buy" "X" 100 10 10 10 0;
                  mkTrade 5 "sell" "X" 60 3 20 3 0 ] in
  let first := generate_matches orders objective_profit in
  let second := generate_matches first.2 objective_profit in
  length first.1 = 1%nat /\ second.1 = [].
Proof. vm_compute. split; reflexivity. Qed.

(** Two candidates of equal score are visited in generation order: sells by
    date, and for each sell the buys by date. *)
Example equal_scores_keep_generation_order :
  let orders := [ mkTrade 3 "buy" "X" 10 1 10 1 0;
                  mkTrade 1 "buy" "X" 10 1 10 1 0;
                  mkTrade 9 "sell" "X" 20 1 20 1 0 ] in
  (fun m => (buy m, sell m)) <$> selection_order orders objective_profit
    = [(1%nat, 2%nat); (0%nat, 2%nat)] /\
  (fun m => (buy m, sell m)) <$> (generate_matches orders objective_profit).1
    = [(1%nat, 2%nat)].
Proof. vm_compute. split; reflexivity. Qed.

(** * Further properties *)

(** ** The matching engine: what the loop accepts *)

Lemma candidates_exact (orders : list Trade) (m : Match) :
  In m (candidates orders) -> exact_cand orders m.
Proof.
  unfold candidates. rewrite in_flat_map. intros (s & Hs & Hm).
  rewrite in_flat_map in Hm. destruct Hm as (b & Hb & Hm).
  destruct (can_pair s.2 b.2) eqn:E; [|destruct Hm].
  destruct Hm as [<-|[]].
  apply buys_of_In in Hb as [Hb1 Hb2]. apply sells_of_In in Hs as [Hs1 Hs2].
  exists b.2, s.2. simpl. auto 10.
Qed.

Lemma exact_cand_valid (orders : list Trade) (m : Match) :
  exact_cand orders m -> valid_cand orders m.
Proof.
  intros (b & s & Hb & Hs & Tb & Ts & Hp & _). exists b, s. auto.
Qed.

Lemma selection_order_exact (orders : list Trade) (f : objective) :
  Forall (exact_cand orders) (selection_order orders f).
Proof.
  rewrite Forall_forall. intros m Hm. apply list_elem_of_In in Hm.
  unfold selection_order in Hm. rewrite sorted_by_In in Hm.
  by apply candidates_exact.
Qed.

(** An unused object still is what the call received. *)
Lemma unused_unchanged (orders : list Trade) (st : Sel) (i : nat) (t : Trade) :
  sel_inv orders st -> orders !! i = Some t ->
  i ∉ used_buy st -> i ∉ used_sell st -> heap st !! i = Some t.
Proof.
  intros I Ht Hb Hs.
  destruct (inv_frame _ _ I i t Ht) as (t' & Ht' & Et & Hq & _).
  rewrite Ht', Et, (Hq Hb Hs). by destruct t.
Qed.

(** The step on a candidate whose two objects are unused: the match it
    appends is the candidate itself. *)
Lemma select_step_accept (orders : list Trade) (st : Sel) (m : Match) :
  exact_cand orders m -> sel_inv orders st ->
  buy m ∉ used_buy st -> sell m ∉ used_sell st ->
  select_step st m =
    {| heap := alter (dec_qty (m_qty m)) (sell m)
                 (alter (dec_qty (m_qty m)) (buy m) (heap st));
       res := res st ++ [m];
       used_buy := used_buy st ∪ {[buy m]};
       used_sell := used_sell st ∪ {[sell m]} |}.
Proof.
  intros (b & s & Hb & Hs & Tb & Ts & Hp & Em) I Eb Es.
  assert (Hbs : buy m ∉ used_sell st).
  { intros H. destruct (inv_sell_type _ _ I _ H) as (t & Ht & Tt). congruence. }
  assert (Hsb : sell m ∉ used_buy st).
  { intros H. destruct (inv_buy_type _ _ I _ H) as (t & Ht & Tt). congruence. }
  unfold select_step.
  rewrite (bool_decide_eq_false_2 _ Eb), (bool_decide_eq_false_2 _ Es).
  cbn [orb].
  rewrite (unused_unchanged _ _ _ _ I Hb Eb Hbs).
  rewrite (unused_unchanged _ _ _ _ I Hs Hsb Es).
  assert (Hq : Z.min (qty b) (qty s) = m_qty m).
  { rewrite Em. simpl. apply Z.min_comm. }
  rewrite Hq. f_equal. f_equal. f_equal.
  rewrite <- Hq, Z.min_comm. symmetry. exact Em.
Qed.

Lemma select_step_skip (st : Sel) (m : Match) :
  buy m ∈ used_buy st \/ sell m ∈ used_sell st -> select_step st m = st.
Proof.
  intros H. unfold select_step.
  destruct H as [H|H]; rewrite (bool_decide_eq_true_2 _ H);
    [reflexivity|by rewrite orb_true_r].
Qed.

Lemma matched_total_snoc (r : nat) (matches : list Match) (m : Match) :
  matched_total r (matches ++ [m]) = matched_total r matches + stake r m.
Proof.
  induction matches as [|m' l IH]; simpl; [lia|]. rewrite IH. lia.
Qed.

Lemma qty_at_alter_dec (orders : list Trade) (j r : nat) (q : Z) :
  (j < length orders)%nat ->
  qty_at (alter (dec_qty q) j orders) r
  = qty_at orders r - (if bool_decide (j = r) then q else 0).
Proof.
  intros Hj. unfold qty_at. destruct (decide (j = r)) as [->|Hne].
  - rewrite bool_decide_eq_true_2 by done. rewrite list_lookup_alter_eq.
    destruct (lookup_lt_is_Some_2 _ _ Hj) as [t ->]. reflexivity.
  - rewrite bool_decide_eq_false_2 by done.
    rewrite list_lookup_alter_ne by done. lia.
Qed.

(** What a run of the loop over exact candidates does to a state that
    satisfies the invariant. *)
Lemma fold_select_run (orders : list Trade) (l : list Match) :
  Forall (exact_cand orders) l ->
  forall st, sel_inv orders st ->
    let st' := fold_left select_step l st in
    (exists acc, res st' = res st ++ acc /\ acc `sublist_of` l) /\
    used_buy st ⊆ used_buy st' /\ used_sell st ⊆ used_sell st' /\
    (forall m, m ∈ l -> buy m ∈ used_buy st' \/ sell m ∈ used_sell st') /\
    (forall r, qty_at (heap st') r + matched_total r (res st')
               = qty_at (heap st) r + matched_total r (res st)).
Proof.
  induction 1 as [|m l Hm Hl IH]; intros st I; simpl.
  { split; [exists []; by rewrite app_nil_r|].
    split; [done|]. split; [done|]. split; [|done].
    intros m Hm. by apply elem_of_nil in Hm. }
  destruct (decide (buy m ∈ used_buy st \/ sell m ∈ used_sell st)) as [Hu|Hn].
  - rewrite (select_step_skip st m Hu).
    destruct (IH st I) as ((acc & Hacc & Hsub) & Hub & Hus & Hall & Hbal).
    split; [exists acc; split; [done|by apply sublist_cons]|].
    split; [done|]. split; [done|]. split; [|done].
    intros m' [->|Hm']%elem_of_cons; [|auto].
    destruct Hu as [Hu|Hu]; [left|right]; set_solver.
  - assert (Eb : buy m ∉ used_buy st) by tauto.
    assert (Es : sell m ∉ used_sell st) by tauto.
    pose proof (select_step_inv orders st m (exact_cand_valid _ _ Hm) I) as I1.
    rewrite (select_step_accept orders st m Hm I Eb Es) in I1 |- *.
    set (st1 := mkSel _ _ _ _) in *.
    destruct (IH st1 I1) as ((acc & Hacc & Hsub) & Hub & Hus & Hall & Hbal).
    split; [exists (m :: acc); split; [|by apply sublist_skip]|].
    { rewrite Hacc. simpl. by rewrite <- app_assoc. }
    split; [set_solver|]. split; [set_solver|]. split.
    + intros m' [->|Hm']%elem_of_cons; [|auto]. left. set_solver.
    + intros r. rewrite Hbal. unfold st1. simpl.
      destruct Hm as (b & s & Hb & Hs & _).
      rewrite matched_total_snoc, !qty_at_alter_dec.
      * unfold stake. lia.
      * rewrite (inv_len _ _ I). by eapply lookup_lt_Some.
      * rewrite length_alter, (inv_len _ _ I). by eapply lookup_lt_Some.
Qed.

Lemma select_run (orders : list Trade) (f : objective) :
  let st' := select orders f in
  res st' `sublist_of` selection_order orders f /\
  (forall m, m ∈ selection_order orders f ->
             buy m ∈ used_buy st' \/ sell m ∈ used_sell st') /\
  (forall r, qty_at (heap st') r + matched_total r (res st') = qty_at orders r).
Proof.
  destruct (fold_select_run orders _ (selection_order_exact orders f)
              _ (sel_inv_init orders))
    as ((acc & Hacc & Hsub) & _ & _ & Hall & Hbal).
  simpl in *. split; [|split].
  - unfold select. by rewrite Hacc.
  - exact Hall.
  - intros r. unfold select. rewrite Hbal. simpl. lia.
Qed.

(** ** Candidates are distinct, and the loop is greedy *)

Lemma enumerate_fst_NoDup (orders : list Trade) : NoDup (fst <$> enumerate orders).
Proof.
  unfold enumerate. rewrite fmap_imap.
  rewrite (imap_ext _ (fun j _ => id j)) by done.
  rewrite imap_seq_0, list_fmap_id. apply NoDup_seq.
Qed.

Lemma filter_sublist {A} (p : A -> bool) (l : list A) :
  List.filter p l `sublist_of` l.
Proof.
  induction l as [|x l IH]; simpl; [constructor|].
  destruct (p x); by constructor.
Qed.

Lemma sorted_filter_fst_NoDup (p : nat * Trade -> bool) (orders : list Trade) :
  NoDup (fst <$> sorted_by Z.ltb (fun p => date p.2)
                   (List.filter p (enumerate orders))).
Proof.
  rewrite sorted_by_perm.
  eapply sublist_NoDup; [apply enumerate_fst_NoDup|].
  apply fmap_sublist, filter_sublist.
Qed.

(** The two references of a match. *)
Lemma pair_candidates_NoDup (s : nat * Trade) (buys : list (nat * Trade)) :
  NoDup (fst <$> buys) ->
  NoDup ((fun m => (sell m, buy m)) <$>
         flat_map (fun b =>
           if can_pair s.2 b.2
           then [Match_init b.1 s.1 b.2 s.2 (Z.min (qty s.2) (qty b.2))]
           else []) buys) /\
  forall k, k ∈ ((fun m => (sell m, buy m)) <$>
         flat_map (fun b =>
           if can_pair s.2 b.2
           then [Match_init b.1 s.1 b.2 s.2 (Z.min (qty s.2) (qty b.2))]
           else []) buys) ->
    k.1 = s.1 /\ k.2 ∈ fst <$> buys.
Proof.
  induction buys as [|b buys IH]; intros Hnd; simpl.
  { split; [constructor|]. intros k Hk. by apply elem_of_nil in Hk. }
  rewrite fmap_cons in Hnd. apply NoDup_cons in Hnd as [Hb Hnd].
  destruct (IH Hnd) as [IH1 IH2].
  destruct (can_pair s.2 b.2); simpl.
  - split.
    + apply NoDup_cons. split; [|exact IH1].
      intros Hin. apply IH2 in Hin as [_ Hin]. simpl in Hin. by apply Hb.
    + intros k [->|Hk]%elem_of_cons.
      * simpl. split; [reflexivity|apply list_elem_of_here].
      * destruct (IH2 k Hk) as [H1 H2].
        split; [exact H1|by apply list_elem_of_further].
  - split; [exact IH1|].
    intros k Hk. destruct (IH2 k Hk) as [H1 H2].
    split; [exact H1|by apply list_elem_of_further].
Qed.

Lemma candidates_NoDup (orders : list Trade) : NoDup (candidates orders).
Proof.
  apply (NoDup_fmap_1 (fun m => (sell m, buy m))).
  unfold candidates.
  pose proof (sorted_filter_fst_NoDup is_buy orders) as Hb.
  pose proof (sorted_filter_fst_NoDup is_sell orders) as Hs.
  fold (buys_of orders) in Hb. fold (sells_of orders) in Hs.
  induction (sells_of orders) as [|s sells IH]; simpl; [constructor|].
  rewrite fmap_cons in Hs. apply NoDup_cons in Hs as [Hs Hnd].
  rewrite fmap_app. apply NoDup_app.
  destruct (pair_candidates_NoDup s (buys_of orders) Hb) as [H1 H2].
  split; [exact H1|]. split; [|by apply IH].
  intros k Hk Hk'. apply H2 in Hk as [Hk _].
  apply list_elem_of_fmap in Hk' as (m & -> & Hm).
  apply list_elem_of_In, in_flat_map in Hm as (s' & Hs' & Hm).
  apply list_elem_of_In in Hm.
  destruct (pair_candidates_NoDup s' (buys_of orders) Hb) as [_ H2'].
  destruct (H2' (sell m, buy m)) as [Hk' _].
  { by apply (list_elem_of_fmap_2 (fun m => (sell m, buy m))). }
  simpl in *. apply Hs. rewrite <- Hk, Hk'.
  apply list_elem_of_fmap_2. by apply list_elem_of_In.
Qed.

Lemma selection_order_NoDup (orders : list Trade) (f : objective) :
  NoDup (selection_order orders f).
Proof.
  unfold selection_order. rewrite sorted_by_perm. apply candidates_NoDup.
Qed.

(** The loop is greedy over the order it visits: a candidate is returned
    exactly when no candidate visited before it and returned has its buy or
    its sell. *)
Lemma select_greedy (orders : list Trade) (f : objective)
    (l1 l2 : list Match) (c : Match) :
  selection_order orders f = l1 ++ c :: l2 ->
  c ∈ res (select orders f) <->
  forall c', c' ∈ l1 -> c' ∈ res (select orders f) ->
             buy c' <> buy c /\ sell c' <> sell c.
Proof.
  intros Hsel.
  pose proof (selection_order_NoDup orders f) as Hnd.
  pose proof (selection_order_exact orders f) as Hex.
  unfold select. rewrite Hsel in Hnd, Hex |- *.
  apply NoDup_app in Hnd as (Hnd1 & Hdis & Hnd2).
  apply NoDup_cons in Hnd2 as [Hc2 Hnd2].
  apply Forall_app in Hex as [Hex1 Hex2].
  apply Forall_cons in Hex2 as [Hexc Hex2].
  rewrite fold_left_app. cbn [fold_left].
  set (st1 := fold_left select_step l1 (mkSel orders [] ∅ ∅)).
  assert (I1 : sel_inv orders st1).
  { apply fold_select_inv; [|apply sel_inv_init].
    eapply Forall_impl; [exact Hex1|]. apply exact_cand_valid. }
  destruct (fold_select_run orders l1 Hex1 _ (sel_inv_init orders))
    as ((acc1 & Hacc1 & Hsub1) & _). fold st1 in Hacc1. simpl in Hacc1.
  assert (Hc1 : c ∉ l1).
  { intros Hin. apply (Hdis c Hin). apply list_elem_of_here. }
  destruct (decide (buy c ∈ used_buy st1 \/ sell c ∈ used_sell st1)) as [Hu|Hn].
  - rewrite (select_step_skip st1 c Hu).
    destruct (fold_select_run orders l2 Hex2 _ I1)
      as ((acc2 & Hacc2 & Hsub2) & _).
    rewrite Hacc2, Hacc1. split.
    + intros [Hin|Hin]%elem_of_app; exfalso.
      * apply Hc1. by eapply elem_of_sublist.
      * apply Hc2. by eapply elem_of_sublist.
    + intros Hall. exfalso.
      destruct Hu as [Hu|Hu].
      * apply (inv_used_buy _ _ I1), list_elem_of_fmap in Hu as (c' & Hb & Hc').
        rewrite Hacc1 in Hc'.
        destruct (Hall c') as [Hne _]; [by eapply elem_of_sublist| |congruence].
        apply elem_of_app. by left.
      * apply (inv_used_sell _ _ I1), list_elem_of_fmap in Hu as (c' & Hb & Hc').
        rewrite Hacc1 in Hc'.
        destruct (Hall c') as [_ Hne]; [by eapply elem_of_sublist| |congruence].
        apply elem_of_app. by left.
  - assert (Eb : buy c ∉ used_buy st1) by tauto.
    assert (Es : sell c ∉ used_sell st1) by tauto.
    pose proof (select_step_inv orders st1 c (exact_cand_valid _ _ Hexc) I1) as I2.
    rewrite (select_step_accept orders st1 c Hexc I1 Eb Es) in I2 |- *.
    set (st2 := mkSel _ _ _ _) in *.
    destruct (fold_select_run orders l2 Hex2 _ I2)
      as ((acc2 & Hacc2 & Hsub2) & _).
    rewrite Hacc2. unfold st2. simpl. rewrite Hacc1. split.
    + intros _ c' Hc' Hin.
      assert (Hin1 : c' ∈ acc1).
      { apply elem_of_app in Hin as [Hin|Hin];
          [apply elem_of_app in Hin as [Hin|Hin]|]; [done| |].
        - apply list_elem_of_singleton in Hin as ->. done.
        - exfalso. apply (Hdis c' Hc'). apply list_elem_of_further.
          by eapply elem_of_sublist. }
      rewrite <- Hacc1 in Hin1. split; intros E.
      * apply Eb. rewrite <- E. apply (inv_used_buy _ _ I1).
        by apply list_elem_of_fmap_2.
      * apply Es. rewrite <- E. apply (inv_used_sell _ _ I1).
        by apply list_elem_of_fmap_2.
    + intros _. apply elem_of_app. left. apply elem_of_app. right.
      apply list_elem_of_here.
Qed.

(** C6.  The match list is a function of the input records and of the
    scores the objective gives to single candidates: two runs on the same
    records under the same objective, or under two objectives with equal
    scores, return the same list, in both entry points.  The returned list
    is the greedy choice over the candidates taken by descending score,
    candidates of equal score in the order they were generated: it keeps
    that order, and a candidate is returned exactly when no candidate
    before it in that order is returned with the same buy or the same
    sell. *)
Theorem C6_pipeline_deterministic_stable_ties
    (records : list Row) (f g : objective) :
  (forall m, f [m] == g [m])%Q ->
  App.pipeline records f = App.pipeline records g /\
  Orders.pipeline records f = Orders.pipeline records g /\
  forall orders,
    generate_matches orders f = generate_matches orders g /\
    selection_order orders f ≡ₚ candidates orders /\
    StronglySorted (fun a b => f [b] <= f [a])%Q (selection_order orders f) /\
    (forall q : Q,
      List.filter (fun m => Qeq_bool (f [m]) q) (selection_order orders f)
      = List.filter (fun m => Qeq_bool (f [m]) q) (candidates orders)) /\
    (generate_matches orders f).1 `sublist_of` selection_order orders f /\
    forall l1 c l2,
      selection_order orders f = l1 ++ c :: l2 ->
      (c ∈ (generate_matches orders f).1 <->
       forall c', c' ∈ l1 -> c' ∈ (generate_matches orders f).1 ->
                  buy c' <> buy c /\ sell c' <> sell c).
Proof.
  intros H. split; [|split].
  - unfold App.pipeline. by rewrite (generate_matches_ext _ f g H).
  - unfold Orders.pipeline.
    destruct (Orders.load_orders records) as [orders|e]; [|reflexivity].
    change (Ok (generate_matches orders f).1 = Ok (generate_matches orders g).1).
    by rewrite (generate_matches_ext _ f g H).
  - intros orders. split; [by apply generate_matches_ext|].
    destruct (selection_order_stable orders f) as (Hperm & Hsorted & Hties).
    split; [exact Hperm|]. split; [exact Hsorted|]. split; [exact Hties|].
    split; [apply (select_run orders f)|].
    intros l1 c l2 Hsel. exact (select_greedy orders f l1 l2 c Hsel).
Qed.

Lemma C6_pipeline_deterministic_stable_ties_witness :
  let records := [ mkRow 0 "buy" "X" 50 5; mkRow 31 "sell" "X" 100 5;
                   mkRow 40 "sell" "X" 90 3 ] in
  let g := fun matches => (- objective_loss matches)%Q in
  App.pipeline records objective_profit = App.pipeline records g /\
  Orders.pipeline records objective_profit = Orders.pipeline records g.
Proof.
  intros records g.
  assert (H : forall m, (objective_profit [m] == g [m])%Q).
  { intros m. unfold g, objective_loss, objective_profit.
    symmetry. apply Qopp_involutive. }
  destruct (C6_pipeline_deterministic_stable_ties records objective_profit g H)
    as (Happ & Hord & _).
  split; [exact Happ|exact Hord].
Defined.

(** Two buys of one price against one sell score the same: the buy dated
    first is generated first, is visited first and is the one returned. *)
Example tied_candidates_earlier_generated_wins :
  let orders := [ mkTrade 3 "buy" "X" 10 1 10 1 0;
                  mkTrade 1 "buy" "X" 10 1 10 1 0;
                  mkTrade 9 "sell" "X" 20 1 20 1 0 ] in
  (fun m => (buy m, sell m)) <$> candidates orders
    = [(1%nat, 2%nat); (0%nat, 2%nat)] /\
  (fun m => objective_profit [m]) <$> candidates orders = [10%Q; 10%Q] /\
  (fun m => (buy m, sell m)) <$> (generate_matches orders objective_profit).1
    = [(1%nat, 2%nat)].
Proof. vm_compute. repeat split; reflexivity. Qed.

Lemma StronglySorted_sublist {A} (R : A -> A -> Prop) (l k : list A) :
  l `sublist_of` k -> StronglySorted R k -> StronglySorted R l.
Proof.
  induction 1 as [|x l k Hlk IH|x l k Hlk IH]; intros Hk; [done| |].
  - apply StronglySorted_inv in Hk as [Hs Hx].
    constructor; [by apply IH|].
    rewrite Forall_forall in Hx |- *. intros y Hy. apply Hx.
    by eapply elem_of_sublist.
  - apply StronglySorted_inv in Hk as [Hs _]. by apply IH.
Qed.

(** X1.  The returned matches are candidates of the generation phase, unchanged
    by the recomputation of the quantity, in the order the loop visits
    them; so the returned list is in descending order of the score the
    objective gives to each match alone. *)
Theorem accepted_matches_are_candidates_in_rank_order
    (orders : list Trade) (strategy_func : objective) :
  let matches := (generate_matches orders strategy_func).1 in
  matches `sublist_of` selection_order orders strategy_func /\
  (forall m, m ∈ matches -> In m (candidates orders)) /\
  StronglySorted (fun a b => strategy_func [b] <= strategy_func [a])%Q matches.
Proof.
  destruct (select_run orders strategy_func) as (Hsub & _). simpl.
  destruct (selection_order_stable orders strategy_func) as (Hperm & Hsorted & _).
  split; [exact Hsub|]. split.
  - intros m Hm. apply list_elem_of_In. rewrite <- Hperm.
    by eapply elem_of_sublist.
  - by eapply StronglySorted_sublist.
Qed.

(** X2.  The result is maximal: no candidate is left with both its buy and its
    sell outside the returned matches. *)
Theorem no_candidate_left_with_both_sides_free
    (orders : list Trade) (strategy_func : objective) (m : Match) :
  In m (candidates orders) ->
  let matches := (generate_matches orders strategy_func).1 in
  buy m ∈ buy <$> matches \/ sell m ∈ sell <$> matches.
Proof.
  intros Hm. simpl.
  pose proof (select_inv orders strategy_func) as I.
  destruct (select_run orders strategy_func) as (_ & Hall & _).
  rewrite <- (inv_used_buy _ _ I), <- (inv_used_sell _ _ I).
  apply Hall. destruct (selection_order_stable orders strategy_func) as (Hperm & _).
  rewrite Hperm. by apply list_elem_of_In.
Qed.

Lemma no_candidate_left_with_both_sides_free_witness :
  let orders := [ mkTrade 0 "buy" "X" 100 10 10 10 0;
                  mkTrade 5 "sell" "X" 60 3 20 3 0;
                  mkTrade 6 "sell" "X" 60 4 15 4 0 ] in
  let m := Match_init 0 2 (mkTrade 0 "buy" "X" 100 10 10 10 0)
                          (mkTrade 6 "sell" "X" 60 4 15 4 0) 4 in
  let matches := (generate_matches orders objective_profit).1 in
  buy m ∈ buy <$> matches \/ sell m ∈ sell <$> matches.
Proof.
  intros orders m.
  apply (no_candidate_left_with_both_sides_free orders objective_profit m).
  vm_compute. right. left. reflexivity.
Defined.

Lemma select_head (orders : list Trade) (f : objective) (m : Match) (l : list Match) :
  selection_order orders f = m :: l ->
  exists rest, res (select orders f) = m :: rest.
Proof.
  intros Hsel. unfold select. rewrite Hsel. simpl.
  pose proof (selection_order_exact orders f) as Hex.
  rewrite Hsel in Hex. apply Forall_cons in Hex as [Hm Hl].
  pose proof (sel_inv_init orders) as I0.
  pose proof (select_step_inv orders _ m (exact_cand_valid _ _ Hm) I0) as I1.
  rewrite (select_step_accept orders _ m Hm I0) in I1 |- * by set_solver.
  destruct (fold_select_run orders l Hl _ I1) as ((acc & Hacc & _) & _).
  simpl in Hacc. eauto.
Qed.

(** X3.  The best-ranked candidate is always accepted, and comes first in the
    returned list: no candidate scores higher than the first match. *)
Theorem top_candidate_is_first_match
    (orders : list Trade) (strategy_func : objective) (m : Match) (l : list Match) :
  selection_order orders strategy_func = m :: l ->
  (exists rest, (generate_matches orders strategy_func).1 = m :: rest) /\
  forall c, In c (candidates orders) ->
            (strategy_func [c] <= strategy_func [m])%Q.
Proof.
  intros Hsel. split; [by eapply select_head|].
  destruct (selection_order_stable orders strategy_func) as (Hperm & Hsorted & _).
  rewrite Hsel in Hperm, Hsorted.
  apply StronglySorted_inv in Hsorted as [_ Hm].
  intros c Hc. apply list_elem_of_In in Hc. rewrite <- Hperm in Hc.
  apply elem_of_cons in Hc as [->|Hc]; [apply Qle_refl|].
  rewrite Forall_forall in Hm. by apply Hm.
Qed.

Lemma top_candidate_is_first_match_witness :
  let orders := [ mkTrade 0 "buy" "X" 100 10 10 10 0;
                  mkTrade 5 "sell" "X" 60 3 20 3 0 ] in
  let m := Match_init 0 1 (mkTrade 0 "buy" "X" 100 10 10 10 0)
                          (mkTrade 5 "sell" "X" 60 3 20 3 0) 3 in
  (exists rest, (generate_matches orders objective_profit).1 = m :: rest) /\
  forall c, In c (candidates orders) ->
            (objective_profit [c] <= objective_profit [m])%Q.
Proof.
  intros orders m.
  apply (top_candidate_is_first_match orders objective_profit m []).
  vm_compute. reflexivity.
Defined.

(** X4.  The run returns no match exactly when the generation phase finds no
    candidate (an empty order list, no buy, no sell, no pair of one ticker
    in date order with positive quantities); the order list is then left
    as it was. *)
Theorem no_match_iff_no_candidate (orders : list Trade) (strategy_func : objective) :
  ((generate_matches orders strategy_func).1 = [] <-> candidates orders = []) /\
  (candidates orders = [] -> generate_matches orders strategy_func = ([], orders)) /\
  generate_matches [] strategy_func = ([], []).
Proof.
  assert (Hnil : candidates orders = [] ->
                 generate_matches orders strategy_func = ([], orders)).
  { intros Hc. unfold generate_matches, select, selection_order.
    rewrite Hc. reflexivity. }
  split; [split|split; [exact Hnil|reflexivity]].
  - intros Hres.
    destruct (selection_order orders strategy_func) as [|m l] eqn:Hsel.
    + destruct (selection_order_stable orders strategy_func) as (Hperm & _).
      rewrite Hsel in Hperm. symmetry. by apply Permutation_nil_l.
    + destruct (select_head _ _ _ _ Hsel) as [rest Hr].
      simpl in Hres. congruence.
  - intros Hc. by rewrite (Hnil Hc).
Qed.

Lemma matched_total_zero (r : nat) (l : list Match) :
  (forall m, m ∈ l -> buy m <> r /\ sell m <> r) -> matched_total r l = 0.
Proof.
  induction l as [|x l IH]; intros H; [reflexivity|]. simpl.
  destruct (H x (list_elem_of_here _ _)) as [Hb Hs].
  unfold stake. rewrite !bool_decide_eq_false_2 by done.
  rewrite IH; [lia|]. intros m Hm. apply H. by apply list_elem_of_further.
Qed.

Lemma matched_total_buy (l : list Match) (m : Match) :
  m ∈ l -> NoDup (buy <$> l) -> (forall m', m' ∈ l -> sell m' <> buy m) ->
  matched_total (buy m) l = m_qty m.
Proof.
  induction l as [|x l IH]; intros Hm Hnd Hs; [by apply elem_of_nil in Hm|].
  rewrite fmap_cons in Hnd. apply NoDup_cons in Hnd as [Hx Hnd]. simpl.
  apply elem_of_cons in Hm as [->|Hm].
  - unfold stake. rewrite bool_decide_eq_true_2 by done.
    rewrite bool_decide_eq_false_2 by (apply Hs, list_elem_of_here).
    rewrite matched_total_zero; [lia|].
    intros m' Hm'. split.
    + intros E. apply Hx. rewrite <- E. by apply list_elem_of_fmap_2.
    + apply Hs. by apply list_elem_of_further.
  - unfold stake. rewrite !bool_decide_eq_false_2.
    + rewrite IH; [lia|done|done|].
      intros m' Hm'. apply Hs. by apply list_elem_of_further.
    + apply Hs, list_elem_of_here.
    + intros E. apply Hx. rewrite E. by apply list_elem_of_fmap_2.
Qed.

Lemma matched_total_sell (l : list Match) (m : Match) :
  m ∈ l -> NoDup (sell <$> l) -> (forall m', m' ∈ l -> buy m' <> sell m) ->
  matched_total (sell m) l = m_qty m.
Proof.
  induction l as [|x l IH]; intros Hm Hnd Hs; [by apply elem_of_nil in Hm|].
  rewrite fmap_cons in Hnd. apply NoDup_cons in Hnd as [Hx Hnd]. simpl.
  apply elem_of_cons in Hm as [->|Hm].
  - unfold stake. rewrite (bool_decide_eq_true_2 (sell x = sell x)) by done.
    rewrite bool_decide_eq_false_2 by (apply Hs, list_elem_of_here).
    rewrite matched_total_zero; [lia|].
    intros m' Hm'. split.
    + apply Hs. by apply list_elem_of_further.
    + intros E. apply Hx. rewrite <- E. by apply list_elem_of_fmap_2.
  - unfold stake. rewrite !bool_decide_eq_false_2.
    + rewrite IH; [lia|done|done|].
      intros m' Hm'. apply Hs. by apply list_elem_of_further.
    + intros E. apply Hx. rewrite E. by apply list_elem_of_fmap_2.
    + apply Hs, list_elem_of_here.
Qed.

(** X5.  Quantity is conserved: for every object, what the run leaves plus what
    the returned matches took from it is what it had. *)
Theorem run_conserves_quantity
    (orders : list Trade) (strategy_func : objective) (r : nat) :
  let run := generate_matches orders strategy_func in
  qty_at run.2 r + matched_total r run.1 = qty_at orders r.
Proof.
  destruct (select_run orders strategy_func) as (_ & _ & Hbal). apply Hbal.
Qed.

(** X6.  A returned match takes the smaller of the quantities its buy and its
    sell came with, a positive number, from both of them: one of the two is
    left with nothing, the other with the difference. *)
Theorem match_takes_min_of_both_sides
    (orders : list Trade) (strategy_func : objective) (m : Match) :
  let run := generate_matches orders strategy_func in
  m ∈ run.1 ->
  0 < m_qty m /\
  m_qty m = Z.min (qty_at orders (buy m)) (qty_at orders (sell m)) /\
  qty_at run.2 (buy m) = qty_at orders (buy m) - m_qty m /\
  qty_at run.2 (sell m) = qty_at orders (sell m) - m_qty m /\
  (qty_at run.2 (buy m) = 0 \/ qty_at run.2 (sell m) = 0).
Proof.
  intros run Hm.
  pose proof (select_inv orders strategy_func) as I.
  destruct (select_run orders strategy_func) as (Hsub & _ & Hbal).
  assert (Hex : exact_cand orders m).
  { pose proof (selection_order_exact orders strategy_func) as Hall.
    rewrite Forall_forall in Hall. apply Hall. by eapply elem_of_sublist. }
  destruct Hex as (b & s & Hb & Hs & Tb & Ts & Hp & Em).
  apply can_pair_spec in Hp as (_ & Hqs & Hqb & _).
  assert (Hcross : forall m', m' ∈ res (select orders strategy_func) ->
                              sell m' <> buy m /\ buy m' <> sell m).
  { intros m' Hm'.
    destruct (inv_res _ _ I m' Hm') as (b' & s' & Hb' & Hs' & Tb' & Ts' & _).
    split; intros E; [rewrite E in Hs'|rewrite E in Hb']; congruence. }
  pose proof (Hbal (buy m)) as Hbuy. pose proof (Hbal (sell m)) as Hsell.
  rewrite matched_total_buy in Hbuy;
    [|exact Hm|apply (inv_nodup_buy _ _ I)|intros m' Hm'; by apply Hcross].
  rewrite matched_total_sell in Hsell;
    [|exact Hm|apply (inv_nodup_sell _ _ I)|intros m' Hm'; by apply Hcross].
  assert (Hq : m_qty m = Z.min (qty s) (qty b)) by (rewrite Em; reflexivity).
  assert (Eb : qty_at orders (buy m) = qty b) by (unfold qty_at; by rewrite Hb).
  assert (Es : qty_at orders (sell m) = qty s) by (unfold qty_at; by rewrite Hs).
  unfold run. simpl. rewrite Eb, Es in *. lia.
Qed.

Lemma match_takes_min_of_both_sides_witness :
  let orders := [ mkTrade 0 "buy" "X" 100 10 10 10 0;
                  mkTrade 5 "sell" "X" 60 3 20 3 0 ] in
  let m := Match_init 0 1 (mkTrade 0 "buy" "X" 100 10 10 10 0)
                          (mkTrade 5 "sell" "X" 60 3 20 3 0) 3 in
  let run := generate_matches orders objective_profit in
  0 < m_qty m /\
  m_qty m = Z.min (qty_at orders (buy m)) (qty_at orders (sell m)) /\
  qty_at run.2 (buy m) = qty_at orders (buy m) - m_qty m /\
  qty_at run.2 (sell m) = qty_at orders (sell m) - m_qty m /\
  (qty_at run.2 (buy m) = 0 \/ qty_at run.2 (sell m) = 0).
Proof.
  intros orders m.
  apply (match_takes_min_of_both_sides orders objective_profit m).
  vm_compute. apply list_elem_of_here.
Defined.

Lemma enumerate_lookup_In (orders : list Trade) (i : nat) (t : Trade) :
  orders !! i = Some t -> In (i, t) (enumerate orders).
Proof.
  intros H. apply list_elem_of_In. unfold enumerate.
  by apply (elem_of_lookup_imap_2 (fun i o => (i, o))).
Qed.

(** X7.  There are at most as many matches as buy orders, and as sell orders. *)
Theorem matches_bounded_by_buys_and_sells
    (orders : list Trade) (strategy_func : objective) :
  let matches := (generate_matches orders strategy_func).1 in
  (length matches <= length (buys_of orders))%nat /\
  (length matches <= length (sells_of orders))%nat.
Proof.
  pose proof (select_inv orders strategy_func) as I. simpl. split.
  - rewrite <- (length_fmap buy), <- (length_fmap fst (buys_of orders)).
    apply submseteq_length, NoDup_submseteq; [apply (inv_nodup_buy _ _ I)|].
    intros r Hr. apply (inv_used_buy _ _ I), (inv_buy_type _ _ I) in Hr
      as (t & Ht & Tt).
    apply list_elem_of_fmap. exists (r, t). split; [done|].
    apply list_elem_of_In. unfold buys_of. rewrite sorted_by_In, filter_In.
    split; [by apply enumerate_lookup_In|].
    unfold is_buy. by apply bool_decide_eq_true.
  - rewrite <- (length_fmap sell), <- (length_fmap fst (sells_of orders)).
    apply submseteq_length, NoDup_submseteq; [apply (inv_nodup_sell _ _ I)|].
    intros r Hr. apply (inv_used_sell _ _ I), (inv_sell_type _ _ I) in Hr
      as (t & Ht & Tt).
    apply list_elem_of_fmap. exists (r, t). split; [done|].
    apply list_elem_of_In. unfold sells_of. rewrite sorted_by_In, filter_In.
    split; [by apply enumerate_lookup_In|].
    unfold is_sell. by apply bool_decide_eq_true.
Qed.

(** ** Objective functions and the summary *)

Lemma is_long_term_negb (m : Match) : is_long_term m = negb (is_short_term m).
Proof. unfold is_long_term, is_short_term. apply Z.ltb_antisym. Qed.

Lemma py_sum_one (x : Q) : (py_sum [x] == x)%Q.
Proof. unfold py_sum. simpl. ring. Qed.

Lemma sorted_after {A} (R : A -> A -> Prop) (l1 l2 : list A) (c c' : A) :
  StronglySorted R (l1 ++ c :: l2) -> c' ∈ l2 -> R c c'.
Proof.
  induction l1 as [|x l1 IH]; simpl; intros Hs Hc'.
  - apply StronglySorted_inv in Hs as [_ Hc].
    rewrite Forall_forall in Hc. by apply Hc.
  - apply StronglySorted_inv in Hs as [Hs _]. by apply IH.
Qed.

Lemma short_term_score (m : Match) :
  (objective_short_term_profit [m]
   == if is_short_term m then profit m else 0)%Q.
Proof.
  unfold objective_short_term_profit. simpl.
  destruct (is_short_term m); simpl; [apply py_sum_one|reflexivity].
Qed.

Lemma long_term_score (m : Match) :
  (objective_long_term_profit [m]
   == if is_short_term m then 0 else profit m)%Q.
Proof.
  unfold objective_long_term_profit. simpl. rewrite is_long_term_negb.
  destruct (is_short_term m); simpl; [reflexivity|apply py_sum_one].
Qed.

(** X9.  The term-filtered objectives do not exclude a candidate of the
    other term, they score it 0: alone, a match is worth its profit (its
    negated profit for the loss objectives) to the objectives of its term
    and 0 to those of the other.  So under objective 3 no short-term
    candidate with a positive profit is visited after a long-term one, and
    under objective 4 no long-term candidate with a positive profit is
    visited after a short-term one. *)
Theorem term_objectives_score_other_term_zero (m : Match) :
  (objective_short_term_profit [m]
   == if is_short_term m then profit m else 0)%Q /\
  (objective_long_term_profit [m]
   == if is_short_term m then 0 else profit m)%Q /\
  (objective_short_term_loss [m]
   == if is_short_term m then - profit m else 0)%Q /\
  (objective_long_term_loss [m]
   == if is_short_term m then 0 else - profit m)%Q /\
  (forall orders l1 c l2 c',
     selection_order orders objective_short_term_profit = l1 ++ c :: l2 ->
     is_short_term c = false -> c' ∈ l2 -> is_short_term c' = true ->
     (profit c' <= 0)%Q) /\
  (forall orders l1 c l2 c',
     selection_order orders objective_long_term_profit = l1 ++ c :: l2 ->
     is_short_term c = true -> c' ∈ l2 -> is_short_term c' = false ->
     (profit c' <= 0)%Q).
Proof.
  split; [apply short_term_score|]. split; [apply long_term_score|].
  split; [|split; [|split]].
  - unfold objective_short_term_loss. simpl.
    destruct (is_short_term m); simpl; [|reflexivity].
    by rewrite py_sum_one.
  - unfold objective_long_term_loss. simpl. rewrite is_long_term_negb.
    destruct (is_short_term m); simpl; [reflexivity|].
    by rewrite py_sum_one.
  - intros orders l1 c l2 c' Hsel Hc Hin Hc'.
    destruct (selection_order_stable orders objective_short_term_profit)
      as (_ & Hsorted & _).
    rewrite Hsel in Hsorted.
    pose proof (sorted_after _ _ _ _ _ Hsorted Hin) as Hle. simpl in Hle.
    rewrite !short_term_score, Hc, Hc' in Hle. exact Hle.
  - intros orders l1 c l2 c' Hsel Hc Hin Hc'.
    destruct (selection_order_stable orders objective_long_term_profit)
      as (_ & Hsorted & _).
    rewrite Hsel in Hsorted.
    pose proof (sorted_after _ _ _ _ _ Hsorted Hin) as Hle. simpl in Hle.
    rewrite !long_term_score, Hc, Hc' in Hle. exact Hle.
Qed.

(** X10.  [objective_minimal_loss] is the size of the loss: 0 on a list whose
    total profit is not negative, the negated profit otherwise.  In
    particular it scores every profitable candidate 0. *)
Theorem minimal_loss_is_loss_or_zero (matches : list Match) :
  ((0 <= objective_profit matches)%Q ->
   objective_minimal_loss matches = 0%Q) /\
  ((objective_profit matches < 0)%Q ->
   (objective_minimal_loss matches == - objective_profit matches)%Q).
Proof.
  unfold objective_minimal_loss, objective_profit, py_min. split; intros H.
  - apply Qlt_bool_false in H. rewrite H. reflexivity.
  - pose proof H as H'. apply Qlt_bool_iff in H'. rewrite H'.
    apply Qabs_neg. by apply Qlt_le_weak.
Qed.



Lemma profit_sign (ps pb : Q) (q : Z) :
  0 < q -> (((ps - pb) * inject_Z q < 0)%Q <-> (ps < pb)%Q).
Proof.
  intros Hq.
  assert (Hz : (0 < inject_Z q)%Q) by (unfold Qlt; simpl; lia).
  pose proof (Qmult_lt_r (ps - pb) 0 (inject_Z q) Hz) as Hm.
  assert (E : (0 * inject_Z q == 0)%Q) by ring.
  rewrite E in Hm. rewrite Hm. split; intros H; lra.
Qed.

(** X8.  For a returned match the wash-sale flag says exactly that the sell came
    1 to 30 days after the buy and the match lost money; a flagged match is
    therefore always short-term. *)
Theorem wash_sale_flag_of_returned_match
    (orders : list Trade) (strategy_func : objective) (m : Match) :
  m ∈ (generate_matches orders strategy_func).1 ->
  (is_wash_sale m = true <->
   0 < holding_period_days m <= 30 /\ (profit m < 0)%Q) /\
  (is_wash_sale m = true -> is_short_term m = true).
Proof.
  intros Hm.
  destruct (select_run orders strategy_func) as (Hsub & _).
  assert (Hex : exact_cand orders m).
  { pose proof (selection_order_exact orders strategy_func) as Hall.
    rewrite Forall_forall in Hall. apply Hall. by eapply elem_of_sublist. }
  destruct Hex as (b & s & Hb & Hs & Tb & Ts & Hp & Em).
  apply can_pair_spec in Hp as (_ & Hqs & Hqb & Hd).
  assert (Hiff : is_wash_sale m = true <->
                 0 < holding_period_days m <= 30 /\ (profit m < 0)%Q).
  { rewrite Em. simpl. unfold _check_wash_sale.
    rewrite !andb_true_iff, Z.leb_le, Z.ltb_lt, Qlt_bool_iff.
    rewrite profit_sign by lia. rewrite Z.abs_eq by lia. tauto. }
  split; [exact Hiff|].
  intros Hw. apply Hiff in Hw as [[_ H30] _].
  unfold is_short_term. apply Z.leb_le. lia.
Qed.

Lemma wash_sale_flag_of_returned_match_witness :
  let orders := [ mkTrade 0 "buy" "X" 100 10 10 10 0;
                  mkTrade 5 "sell" "X" 18 3 6 3 0 ] in
  let m := Match_init 0 1 (mkTrade 0 "buy" "X" 100 10 10 10 0)
                          (mkTrade 5 "sell" "X" 18 3 6 3 0) 3 in
  (is_wash_sale m = true <->
   0 < holding_period_days m <= 30 /\ (profit m < 0)%Q) /\
  (is_wash_sale m = true -> is_short_term m = true).
Proof.
  intros orders m.
  apply (wash_sale_flag_of_returned_match orders objective_profit m).
  vm_compute. apply list_elem_of_here.
Defined.

(** ** The wash-sale adjuster: events and lots *)

Lemma scan_lots_event (ticker : string) (date : Z) (price : Q)
    (lots : list Lot) (ws : WashSale) :
  (scan_lots ticker date price lots).2 = Some ws ->
  event_ok ws /\ ws_ticker ws = ticker.
Proof.
  rewrite scan_lots_find.
  destruct (list_find _ lots) as [[i b]|] eqn:F; simpl; [|done].
  intros [= <-]. apply list_find_Some in F as (_ & [El Lo] & _).
  unfold event_ok. simpl. split; [|reflexivity].
  split; [by apply Qlt_bool_iff|]. split; [reflexivity|].
  split; [reflexivity|].
  unfold eligible in El. rewrite !andb_true_iff, Z.ltb_lt, Z.leb_le in El.
  tauto.
Qed.

(** One record appends at most one event, and only a sell record does. *)
Lemma wash_step_events (price : Q) (st : Wash) (record : Row) :
  exists new,
    wash_sales (wash_step price st record) = wash_sales st ++ new /\
    Forall event_ok new /\
    Forall (fun ws => ws_ticker ws = r_ticker record) new /\
    (length new <= if is_sell_row record then 1 else 0)%nat.
Proof.
  unfold wash_step, is_sell_row.
  destruct (bool_decide (r_type record = "buy")) eqn:Eb.
  { exists []. simpl. rewrite app_nil_r.
    split; [done|]. split; [constructor|]. split; [constructor|].
    apply Nat.le_0_l. }
  destruct (bool_decide (r_type record = "sell")) eqn:Es.
  - exists (option_list (scan_lots (r_ticker record) (r_date record) price
                          (lots_of (ticker_buys st) (r_ticker record))).2).
    split; [reflexivity|].
    destruct (scan_lots _ _ _ _).2 as [ws|] eqn:E; simpl.
    + apply scan_lots_event in E as [Hok Htk].
      split; [by apply Forall_singleton|].
      split; [by apply Forall_singleton|]. lia.
    + split; [constructor|]. split; [constructor|]. lia.
  - exists []. simpl. rewrite app_nil_r.
    split; [done|]. split; [constructor|]. split; [constructor|]. lia.
Qed.

Lemma wash_run_events (records : list Row) :
  forall st : Wash,
  exists new,
    wash_sales (App.wash_run st records) = wash_sales st ++ new /\
    Forall event_ok new /\
    (length new <= length (List.filter is_sell_row records))%nat.
Proof.
  induction records as [|r rest IH]; intros st.
  { exists []. simpl. rewrite app_nil_r. repeat split; [constructor|lia]. }
  cbn [App.wash_run fold_left].
  destruct (wash_step_events (App.unit_price (r_total_amount r) (r_qty r)) st r)
    as (n1 & E1 & O1 & _ & L1).
  destruct (IH (wash_step (App.unit_price (r_total_amount r) (r_qty r)) st r))
    as (n2 & E2 & O2 & L2).
  exists (n1 ++ n2). unfold App.wash_run in E2. rewrite E2, E1.
  split; [by rewrite app_assoc|]. split; [by apply Forall_app|].
  rewrite length_app. simpl. destruct (is_sell_row r); simpl; lia.
Qed.

(** X12.  Every event the adjuster returns has a positive adjustment per unit, a
    new price that is the old price plus the adjustment, a total that is
    the adjustment times the lot's quantity, and a sell dated 1 to 30 days
    after the buy; and there are at most as many events as sell records. *)
Theorem wash_events_wellformed (records : list Row) :
  Forall event_ok (App.apply_wash_sale records) /\
  (length (App.apply_wash_sale records)
   <= length (List.filter is_sell_row records))%nat.
Proof.
  unfold App.apply_wash_sale.
  destruct (wash_run_events records wash_init) as (new & E & Hok & Hlen).
  rewrite E. simpl. by split.
Qed.

Lemma scan_lots_lookup_adjust (ticker : string) (date : Z) (price : Q)
    (lots : list Lot) (i : nat) (a : Lot) :
  lots !! i = Some a ->
  exists b, (scan_lots ticker date price lots).1 !! i = Some b /\
    (b = a \/ (adjusted a = false /\
               exists loss, (0 < loss)%Q /\ b = adjust_lot loss a)).
Proof.
  intros Ha. rewrite scan_lots_find.
  destruct (list_find _ lots) as [[j c]|] eqn:F; simpl; [|eauto].
  destruct (decide (j = i)) as [->|Hne];
    [|rewrite list_lookup_alter_ne by done; eauto].
  rewrite list_lookup_alter_eq, Ha. simpl. eexists. split; [reflexivity|].
  right. apply list_find_Some in F as (Hc & [Hel Lo] & _).
  assert (c = a) as -> by congruence.
  split; [by apply eligible_not_adjusted in Hel|].
  eexists. split; [by apply Qlt_bool_iff|reflexivity].
Qed.

(** One record leaves a lot as it is, or finds it unadjusted and adjusts it
    by a positive loss per unit. *)
Lemma wash_step_lot_adjust (price : Q) (st : Wash) (record : Row)
    (ticker : string) (i : nat) (a : Lot) :
  lot_at st ticker i = Some a ->
  exists b, lot_at (wash_step price st record) ticker i = Some b /\
    (b = a \/ (adjusted a = false /\
               exists loss, (0 < loss)%Q /\ b = adjust_lot loss a)).
Proof.
  unfold lot_at, lots_of, wash_step. intros Ha.
  destruct (bool_decide (r_type record = "buy"));
    [|destruct (bool_decide (r_type record = "sell"))]; simpl; [| |eauto].
  - destruct (decide (r_ticker record = ticker)) as [->|Hne].
    + rewrite lookup_insert_eq. simpl.
      exists a. split; [|by left]. by apply lookup_app_l_Some.
    + rewrite lookup_insert_ne by done. eauto.
  - destruct (decide (r_ticker record = ticker)) as [->|Hne].
    + rewrite lookup_insert_eq. simpl. by apply scan_lots_lookup_adjust.
    + rewrite lookup_insert_ne by done. eauto.
Qed.

(** X13.  Whatever records follow, a lot of the list stays in its place and ends
    either untouched or adjusted once: price raised by a positive loss per
    unit, total raised by that loss times the quantity, flag set.  Its
    date, ticker and quantity never change, and a lot whose flag is set
    stays as it is. *)
Theorem lot_ends_untouched_or_adjusted_once
    (ticker : string) (i : nat) (a : Lot) (records : list Row) (st : Wash) :
  lot_at st ticker i = Some a ->
  exists b, lot_at (App.wash_run st records) ticker i = Some b /\
    (b = a \/ (adjusted a = false /\
               exists loss, (0 < loss)%Q /\ b = adjust_lot loss a)).
Proof.
  revert st a. induction records as [|r rest IH]; intros st a Ha; [eauto|].
  cbn [App.wash_run fold_left].
  destruct (wash_step_lot_adjust
              (App.unit_price (r_total_amount r) (r_qty r)) st r ticker i a Ha)
    as (b & Hb & Hab).
  destruct (IH _ b Hb) as (c & Hc & Hbc).
  exists c. split; [exact Hc|].
  destruct Hab as [->|(Hf & loss & Hl & ->)]; [exact Hbc|].
  destruct Hbc as [->|(Hf' & _)]; [|discriminate].
  right. eauto.
Qed.

Lemma lot_ends_untouched_or_adjusted_once_witness :
  let a := mkLot 0 "X" 1 10 10 false in
  let st := mkWash {[ "X" := [a] ]} [] in
  let records := [ mkRow 5 "sell" "X" 9 1; mkRow 9 "sell" "X" 8 1 ] in
  exists b, lot_at (App.wash_run st records) "X" 0 = Some b /\
    (b = a \/ (adjusted a = false /\
               exists loss, (0 < loss)%Q /\ b = adjust_lot loss a)).
Proof.
  intros a st records.
  apply (lot_ends_untouched_or_adjusted_once "X" 0 a records st).
  reflexivity.
Defined.

(** ** The wash-sale adjuster: tickers are independent *)









(** ** Loading the orders *)

(** [trade] once an adjustment has overwritten its price and total. *)
Lemma apply_adjustments_last (events : list WashSale) (t : Trade) :
  apply_adjustments events t
  = match (if bool_decide (order_type t = "buy")
           then last (List.filter (fun ws =>
                  bool_decide (ticker t = ws_ticker ws)
                  && (date t =? buy_date ws)) events)
           else None) with
    | None => t
    | Some ws =>
        set_total_amount (new_price ws * inject_Z (qty t))%Q
                         (set_price (new_price ws) t)
    end.
Proof.
  unfold apply_adjustments. revert t.
  induction events as [|ws events IH]; intros t.
  { simpl. by destruct (bool_decide _). }
  cbn [fold_left List.filter].
  destruct (bool_decide (order_type t = "buy")) eqn:Eo; simpl.
  - destruct (bool_decide (ticker t = ws_ticker ws) && (date t =? buy_date ws))
      eqn:Em.
    + rewrite IH. simpl. rewrite Eo, last_cons.
      destruct (last _) as [w|]; reflexivity.
    + rewrite IH, Eo. reflexivity.
  - rewrite IH, Eo. reflexivity.
Qed.

Lemma load_orders_built (events : list WashSale) (r : Row) :
  built_from events r
    (apply_adjustments events
       (App.Trade_init (r_date r) (r_type r) (r_ticker r)
                       (r_total_amount r) (r_qty r))).
Proof.
  rewrite apply_adjustments_last. unfold built_from, winning_event.
  cbn [App.Trade_init order_type ticker date qty].
  fold (matches_event r).
  replace (List.filter _ events) with (List.filter (matches_event r) events)
    by reflexivity.
  destruct (bool_decide (r_type r = "buy")); [|by repeat split].
  destruct (last (List.filter (matches_event r) events)) as [ws|];
    by repeat split.
Qed.

(** X15.  [load_orders] returns one trade per record, in order, built as
    [built_from] says: the remaining quantity equals the original quantity,
    nothing is matched yet, and the price is the record's unit price unless
    the record is a buy and some event has its ticker and date; then the
    last such event gives the price, and the total is recomputed from it. *)
Theorem load_orders_builds_one_trade_per_record (records : list Row) :
  length (App.load_orders records) = length records /\
  Forall2 (built_from (App.apply_wash_sale records)) records
          (App.load_orders records).
Proof.
  unfold App.load_orders. split; [apply length_map|].
  generalize (App.apply_wash_sale records). intros events.
  induction records as [|r rest IH]; simpl; constructor; [|exact IH].
  apply load_orders_built.
Qed.

(** X16.  On records without a negative quantity, the adjuster followed by the
    engine leaves every trade with [0 <= qty <= original_qty]. *)
Theorem pipeline_keeps_quantities_in_bounds
    (records : list Row) (strategy_func : objective) :
  Forall (fun r => 0 <= r_qty r) records ->
  Forall (fun t => 0 <= qty t <= original_qty t)
         (generate_matches (App.load_orders records) strategy_func).2.
Proof.
  intros Hpos. simpl.
  pose proof (select_inv (App.load_orders records) strategy_func) as I.
  apply Forall_lookup. intros i t' Ht'.
  assert (Hi : (i < length (App.load_orders records))%nat).
  { rewrite <- (inv_len _ _ I). by eapply lookup_lt_Some. }
  destruct (lookup_lt_is_Some_2 _ _ Hi) as [t Ht].
  destruct (inv_frame _ _ I i t Ht) as (u & Hu & Eu & _ & Hr).
  assert (u = t') as -> by congruence.
  unfold App.load_orders in Ht. apply list_lookup_fmap_Some in Ht
    as (r & Et & Hr').
  rewrite Forall_lookup in Hpos. specialize (Hpos i r Hr'). simpl in Hpos.
  destruct (load_orders_built (App.apply_wash_sale records) r)
    as (_ & _ & _ & Hq & Ho & _).
  rewrite <- Et in Hq, Ho.
  rewrite Eu. simpl. rewrite Ho, <- Hq. apply Hr. lia.
Qed.

Lemma pipeline_keeps_quantities_in_bounds_witness :
  let records := [ mkRow 0 "buy" "X" 50 5; mkRow 31 "sell" "X" 100 3 ] in
  Forall (fun t => 0 <= qty t <= original_qty t)
         (generate_matches (App.load_orders records) objective_profit).2.
Proof.
  intros records.
  apply (pipeline_keeps_quantities_in_bounds records objective_profit).
  repeat constructor; simpl; lia.
Defined.

(** ** The two entry points *)

Lemma Orders_build_orders (events : list WashSale) (records : list Row) :
  Orders.build_orders events records
  = if all_nonzero_qty records
    then Ok (map (fun r =>
                apply_adjustments events
                  (App.Trade_init (r_date r) (r_type r) (r_ticker r)
                                  (r_total_amount r) (r_qty r))) records)
    else Raise ZeroDivisionError.
Proof.
  induction records as [|r rest IH]; [reflexivity|].
  cbn [Orders.build_orders all_nonzero_qty forallb map].
  fold (all_nonzero_qty rest). rewrite IH.
  unfold Orders.Trade_init, Orders.unit_price, App.Trade_init, App.unit_price.
  destruct (r_qty r =? 0); [reflexivity|]. simpl.
  destruct (all_nonzero_qty rest); reflexivity.
Qed.

Lemma resolve_or_default (selected : string) :
  resolve (or_default (Some selected)) = resolve selected.
Proof.
  unfold or_default. destruct (bool_decide (selected = "")) eqn:E;
    [|reflexivity].
  apply bool_decide_eq_true in E. by subst.
Qed.

(** X17.  With quantities that convert to a float: on records without a
    zero quantity the terminal entry point loads the same trades as the web
    entry point, and its automatic matching returns the matches the web
    entry point returns for the typed line stripped; when some record has a
    zero quantity, [load_orders] raises [ZeroDivisionError] and [main]
    returns without matching. *)
Theorem entry_points_agree_without_zero_qty
    (typed : string) (records : list Row) :
  in_float_range records ->
  Orders.load_orders records
    = (if all_nonzero_qty records then Ok (App.load_orders records)
       else Raise ZeroDivisionError) /\
  Orders.main typed records
    = (if all_nonzero_qty records
       then match App.process (Some (py_strip typed)) records with
            | Ok matches => Ok (Some matches)
            | Raise e => Raise e
            end
       else Ok None).
Proof.
  intros _.
  assert (H : Orders.load_orders records
    = if all_nonzero_qty records then Ok (App.load_orders records)
      else Raise ZeroDivisionError).
  { unfold Orders.load_orders, Orders.apply_wash_sale, App.load_orders,
      App.apply_wash_sale.
    rewrite Orders_wash_run.
    destruct (all_nonzero_qty records) eqn:E; [|reflexivity]. simpl.
    rewrite Orders_build_orders, E. reflexivity. }
  split; [exact H|].
  unfold Orders.main, App.process, App.pipeline. rewrite H.
  destruct (all_nonzero_qty records); [|reflexivity].
  rewrite resolve_or_default.
  destruct (strategy_get strategy_map (resolve (py_strip typed))); reflexivity.
Qed.

Lemma entry_points_agree_without_zero_qty_witness :
  let records := [ mkRow 0 "buy" "X" 10 1; mkRow 1 "buy" "X" 20 1;
                   mkRow 40 "sell" "X" 15 1 ] in
  Orders.load_orders records
    = (if all_nonzero_qty records then Ok (App.load_orders records)
       else Raise ZeroDivisionError) /\
  Orders.main " 2 " records
    = (if all_nonzero_qty records
       then match App.process (Some (py_strip " 2 ")) records with
            | Ok matches => Ok (Some matches)
            | Raise e => Raise e
            end
       else Ok None).
Proof.
  intros records.
  apply (entry_points_agree_without_zero_qty " 2 " records).
  repeat constructor.
Defined.

(** ** Manual adjustment *)

Lemma py_index_lt {A} (l : list A) (i : Z) (k : nat) :
  py_index l i = Some k -> (k < length l)%nat.
Proof.
  unfold py_index.
  destruct ((0 <=? i) && (i <? Z.of_nat (length l))) eqn:E1.
  - apply andb_true_iff in E1 as [H1 H2].
    apply Z.leb_le in H1. apply Z.ltb_lt in H2. intros [= <-]. lia.
  - destruct ((- Z.of_nat (length l) <=? i) && (i <? 0)) eqn:E2; [|done].
    apply andb_true_iff in E2 as [H1 H2].
    apply Z.leb_le in H1. apply Z.ltb_lt in H2. intros [= <-]. lia.
Qed.

Lemma select_match_lookup (matches : list Match) (choice_in : option Z)
    (k : nat) (m : Match) :
  select_match matches choice_in = Some (k, m) -> matches !! k = Some m.
Proof.
  unfold select_match. destruct choice_in as [c|]; simpl; [|done].
  destruct (py_index matches (c - 1)) as [k'|]; simpl; [|done].
  destruct (matches !! k') as [m'|] eqn:E; simpl; [|done].
  by intros [= <- <-].
Qed.

(** X18.  How the typed number selects a match: [c] between 1 and the length
    selects the [c]-th match; a number from [-(n-1)] to 0 selects like
    [c + n] does, so that 0 stands for the last match; any other number,
    and an input that is not a number, selects nothing, and the call then
    changes neither the matches nor the orders. *)
Theorem typed_number_selects_match
    (matches : list Match) (orders : list Trade) (c : Z)
    (new_choice_in new_qty_in : option Z) :
  let n := Z.of_nat (length matches) in
  (1 <= c <= n ->
   exists m, matches !! Z.to_nat (c - 1) = Some m /\
     select_match matches (Some c) = Some (Z.to_nat (c - 1), m)) /\
  (- n < c <= 0 ->
   select_match matches (Some c) = select_match matches (Some (c + n))) /\
  (c <= - n \/ n < c ->
   adjust_match matches orders (Some c) new_choice_in new_qty_in
   = (matches, orders, msg_invalid)) /\
  adjust_match matches orders None new_choice_in new_qty_in
  = (matches, orders, msg_invalid).
Proof.
  intros n. split; [|split; [|split]].
  - intros Hc. unfold select_match, py_index. simpl. fold n.
    assert (E : (0 <=? c - 1) && (c - 1 <? n) = true).
    { apply andb_true_iff. rewrite Z.leb_le, Z.ltb_lt. lia. }
    rewrite E. simpl.
    destruct (lookup_lt_is_Some_2 matches (Z.to_nat (c - 1))) as [m Hm];
      [lia|].
    exists m. rewrite Hm. by split.
  - intros Hc. unfold select_match, py_index. simpl. fold n.
    assert (E1 : (0 <=? c - 1) && (c - 1 <? n) = false).
    { apply andb_false_iff. left. apply Z.leb_gt. lia. }
    assert (E2 : (- n <=? c - 1) && (c - 1 <? 0) = true).
    { apply andb_true_iff. rewrite Z.leb_le, Z.ltb_lt. lia. }
    assert (E3 : (0 <=? c + n - 1) && (c + n - 1 <? n) = true).
    { apply andb_true_iff. rewrite Z.leb_le, Z.ltb_lt. lia. }
    rewrite E1, E2, E3. simpl.
    replace (n + (c - 1)) with (c + n - 1) by lia. reflexivity.
  - intros Hc. unfold adjust_match, select_match, py_index. simpl. fold n.
    assert (E1 : (0 <=? c - 1) && (c - 1 <? n) = false).
    { apply andb_false_iff. rewrite Z.leb_gt, Z.ltb_ge. lia. }
    assert (E2 : (- n <=? c - 1) && (c - 1 <? 0) = false).
    { apply andb_false_iff. rewrite Z.leb_gt, Z.ltb_ge. lia. }
    rewrite E1, E2. reflexivity.
  - reflexivity.
Qed.

Lemma qty_at_alter (f : Trade -> Trade) (d : Z) (orders : list Trade) (j r : nat) :
  (forall t, qty (f t) = qty t + d) ->
  (r < length orders)%nat ->
  qty_at (alter f j orders) r
  = qty_at orders r + (if bool_decide (j = r) then d else 0).
Proof.
  intros Hf Hr. unfold qty_at. destruct (decide (j = r)) as [->|Hne].
  - rewrite bool_decide_eq_true_2 by done. rewrite list_lookup_alter_eq.
    destruct (lookup_lt_is_Some_2 _ _ Hr) as [t ->]. simpl. apply Hf.
  - rewrite bool_decide_eq_false_2 by done.
    rewrite list_lookup_alter_ne by done. lia.
Qed.

Lemma qty_at_rollback (m : Match) (orders : list Trade) (r : nat) :
  (r < length orders)%nat ->
  qty_at (rollback m orders) r = qty_at orders r + stake r m.
Proof.
  intros Hr. unfold rollback, stake.
  rewrite (qty_at_alter _ (m_qty m)); [|done|by rewrite length_alter].
  rewrite (qty_at_alter _ (m_qty m)); [lia|done|done].
Qed.

Lemma matched_total_insert (r k : nat) (matches : list Match) (m new : Match) :
  matches !! k = Some m ->
  matched_total r (<[k := new]> matches)
  = matched_total r matches - stake r m + stake r new.
Proof.
  revert k. induction matches as [|x l IH]; intros [|k] Hk; try done; simpl in *.
  - injection Hk as ->. lia.
  - rewrite (IH k Hk). lia.
Qed.

(** X20.  A call that ends on the update message conserves quantity: for every
    object of the order list, its remaining quantity plus what the matches
    take from it is the same before and after. *)
Theorem updated_match_conserves_quantity
    (matches : list Match) (orders : list Trade)
    (choice_in new_choice_in new_qty_in : option Z) (r : nat) :
  let out := adjust_match matches orders choice_in new_choice_in new_qty_in in
  out.2 = msg_updated ->
  (r < length orders)%nat ->
  qty_at out.1.2 r + matched_total r out.1.1
  = qty_at orders r + matched_total r matches.
Proof.
  unfold adjust_match.
  destruct (select_match matches choice_in) as [[k m]|] eqn:Hsel; [|done].
  destruct (rollback m orders !! sell m) as [s|] eqn:Hs; [|done].
  destruct (pick_buy _ new_choice_in new_qty_in) as [[[rb nb] nq]|] eqn:Hp;
    [|done].
  simpl. intros _ Hr.
  set (q := Z.min (Z.min nq (qty s)) (qty nb)).
  assert (Hlen : length (rollback m orders) = length orders).
  { unfold rollback. by rewrite !length_alter. }
  rewrite (matched_total_insert r k matches m _ (select_match_lookup _ _ _ _ Hsel)).
  rewrite (qty_at_alter _ (- q)); [|intros t; simpl; lia
                                   |by rewrite length_alter, Hlen].
  rewrite (qty_at_alter _ (- q)); [|intros t; simpl; lia|by rewrite Hlen].
  rewrite qty_at_rollback by done. unfold stake. simpl.
  repeat case_bool_decide; lia.
Qed.

Lemma updated_match_conserves_quantity_witness :
  let orders := [ mkTrade 0 "buy" "X" 100 7 10 10 0;
                  mkTrade 2 "buy" "X" 40 4 10 4 0;
                  mkTrade 5 "sell" "X" 60 0 20 3 0 ] in
  let matches := [ mkMatch 0 2 3 30 5 false ] in
  let out := adjust_match matches orders (Some 1) (Some 2) (Some 2) in
  qty_at out.1.2 1 + matched_total 1 out.1.1
  = qty_at orders 1 + matched_total 1 matches.
Proof.
  intros orders matches.
  apply (updated_match_conserves_quantity matches orders
           (Some 1) (Some 2) (Some 2) 1%nat).
  - vm_compute. reflexivity.
  - simpl. lia.
Defined.

(** X21.  A call that selects a match and then ends on the invalid-input message
    (the second or third input is not a number, or the buy number is out of
    range) keeps the match in the list but has already given its quantity
    back to its buy and its sell: the books are off by that match. *)
Theorem aborted_adjustment_keeps_the_rollback
    (matches : list Match) (orders : list Trade)
    (choice_in new_choice_in new_qty_in : option Z)
    (k : nat) (m : Match) (r : nat) :
  let out := adjust_match matches orders choice_in new_choice_in new_qty_in in
  select_match matches choice_in = Some (k, m) ->
  out.2 = msg_invalid ->
  (r < length orders)%nat ->
  out.1.1 = matches /\
  out.1.2 = rollback m orders /\
  qty_at out.1.2 r = qty_at orders r + stake r m.
Proof.
  unfold adjust_match. intros Hsel. rewrite Hsel.
  destruct (rollback m orders !! sell m) as [s|] eqn:Hs.
  - destruct (pick_buy _ new_choice_in new_qty_in) as [[[rb nb] nq]|] eqn:Hp;
      simpl; [done|].
    intros _ Hr. by rewrite qty_at_rollback.
  - simpl. intros _ Hr. by rewrite qty_at_rollback.
Qed.

Lemma aborted_adjustment_keeps_the_rollback_witness :
  let orders := [ mkTrade 0 "buy" "X" 100 7 10 10 0;
                  mkTrade 5 "sell" "X" 60 0 20 3 0 ] in
  let m := mkMatch 0 1 3 30 5 false in
  let out := adjust_match [m] orders (Some 1) (Some 1) None in
  out.1.1 = [m] /\
  out.1.2 = rollback m orders /\
  qty_at out.1.2 0 = qty_at orders 0 + stake 0 m.
Proof.
  intros orders m.
  apply (aborted_adjustment_keeps_the_rollback [m] orders
           (Some 1) (Some 1) None 0%nat m 0%nat).
  - reflexivity.
  - reflexivity.
  - simpl. lia.
Defined.

Lemma qty_only_refl (orders : list Trade) : qty_only orders orders.
Proof.
  unfold qty_only. induction orders as [|t l IH]; constructor; [|exact IH].
  by destruct t.
Qed.

Lemma qty_only_alter (f : Trade -> Trade) (j : nat) (orders orders' : list Trade) :
  (forall t, f t = set_qty (qty (f t)) t) ->
  qty_only orders orders' -> qty_only orders (alter f j orders').
Proof.
  intros Hf H. unfold qty_only in *. revert j.
  induction H as [|t t' l l' Ht Hl IH]; intros j; [constructor|].
  destruct j as [|j]; simpl; constructor; auto.
  - rewrite Hf, Ht. reflexivity.
  - apply IH.
Qed.

Lemma qty_only_rollback (m : Match) (orders orders' : list Trade) :
  qty_only orders orders' -> qty_only orders (rollback m orders').
Proof.
  intros H. unfold rollback. by repeat apply qty_only_alter.
Qed.

(** X19.  Whatever is typed, a manual adjustment keeps the number of matches and
    of orders, changes nothing of a trade but its remaining quantity, and
    leaves every match other than the selected one in place. *)
Theorem adjustment_changes_quantities_and_one_match
    (matches : list Match) (orders : list Trade)
    (choice_in new_choice_in new_qty_in : option Z) :
  let out := adjust_match matches orders choice_in new_choice_in new_qty_in in
  length out.1.1 = length matches /\
  length out.1.2 = length orders /\
  qty_only orders out.1.2 /\
  forall j, (forall m, select_match matches choice_in <> Some (j, m)) ->
            out.1.1 !! j = matches !! j.
Proof.
  assert (Hq : let out := adjust_match matches orders choice_in
                            new_choice_in new_qty_in in
    length out.1.1 = length matches /\ qty_only orders out.1.2 /\
    forall j, (forall m, select_match matches choice_in <> Some (j, m)) ->
              out.1.1 !! j = matches !! j).
  { unfold adjust_match.
    destruct (select_match matches choice_in) as [[k m]|] eqn:Hsel;
      [|simpl; auto using qty_only_refl].
    destruct (rollback m orders !! sell m) as [s|] eqn:Hs;
      [|simpl; auto using qty_only_rollback, qty_only_refl].
    destruct (pick_buy _ new_choice_in new_qty_in) as [[[rb nb] nq]|] eqn:Hp;
      [|simpl; auto using qty_only_rollback, qty_only_refl].
    simpl. split; [apply length_insert|]. split.
    - do 2 (apply qty_only_alter; [done|]).
      apply qty_only_rollback, qty_only_refl.
    - intros j Hj. apply list_lookup_insert_ne. intros ->. by apply (Hj m). }
  destruct Hq as (H1 & H2 & H3). split; [exact H1|].
  split; [symmetry; by eapply Forall2_length|]. by split.
Qed.

Lemma buy_candidates_In (orders : list Trade) (sell_ : Trade) (p : nat * Trade) :
  In p (buy_candidates orders sell_) ->
  orders !! p.1 = Some p.2 /\ order_type p.2 = "buy" /\
  ticker p.2 = ticker sell_ /\ 0 < qty p.2 /\ date p.2 <= date sell_.
Proof.
  unfold buy_candidates. rewrite sorted_by_In, filter_In. intros [H1 H2].
  rewrite !andb_true_iff, !bool_decide_eq_true, Z.ltb_lt, Z.leb_le in H2.
  split; [by apply enumerate_In|]. tauto.
Qed.

Lemma pick_buy_In (candidates : list (nat * Trade))
    (new_choice_in new_qty_in : option Z) (p : nat * Trade) (q : Z) :
  pick_buy candidates new_choice_in new_qty_in = Some (p, q) ->
  In p candidates /\ new_qty_in = Some q.
Proof.
  unfold pick_buy. destruct new_choice_in as [c|]; simpl; [|done].
  destruct new_qty_in as [nq|]; simpl; [|done].
  destruct (py_index candidates (c - 1)) as [k|]; simpl; [|done].
  destruct (candidates !! k) as [p'|] eqn:E; simpl; [|done].
  intros [= <- <-]. split; [|done].
  apply list_elem_of_In. by eapply list_elem_of_lookup_2.
Qed.

(** X22.  A call that ends on the update message has replaced the selected match
    by a match of the same sell with a buy order of the same ticker dated
    no later than the sell, for at most the quantity asked for; and unless
    the two are one object, neither is left with a negative quantity. *)
Theorem replacement_match_respects_pairing_rule
    (matches : list Match) (orders : list Trade)
    (choice_in new_choice_in : option Z) (new_qty : Z) :
  let out := adjust_match matches orders choice_in new_choice_in (Some new_qty) in
  out.2 = msg_updated ->
  exists k m new,
    select_match matches choice_in = Some (k, m) /\
    out.1.1 = <[k := new]> matches /\
    sell new = sell m /\ m_qty new <= new_qty /\
    exists b s,
      out.1.2 !! buy new = Some b /\ out.1.2 !! sell new = Some s /\
      order_type b = "buy" /\ ticker b = ticker s /\ date b <= date s /\
      new = Match_init (buy new) (sell new) b s (m_qty new) /\
      (buy new <> sell new -> 0 <= qty b /\ 0 <= qty s).
Proof.
  unfold adjust_match.
  destruct (select_match matches choice_in) as [[k m]|] eqn:Hsel; [|done].
  destruct (rollback m orders !! sell m) as [s|] eqn:Hs; [|done].
  destruct (pick_buy _ new_choice_in (Some new_qty)) as [[[rb nb] nq]|] eqn:Hp;
    [|done].
  simpl. intros _.
  apply pick_buy_In in Hp as [Hin [= <-]].
  apply buy_candidates_In in Hin as (Hrb & Tb & Htk & Hq & Hd). simpl in *.
  set (q := Z.min (Z.min new_qty (qty s)) (qty nb)).
  exists k, m, (Match_init rb (sell m) nb s q).
  split; [done|]. split; [done|]. split; [done|]. split; [simpl; lia|]. simpl.
  destruct (decide (rb = sell m)) as [Heq|Hne].
  - assert (nb = s) as -> by congruence.
    exists (dec_qty q (dec_qty q s)), (dec_qty q (dec_qty q s)).
    rewrite <- Heq, list_lookup_alter_eq, list_lookup_alter_eq, Hrb. simpl.
    repeat split; auto; try lia; done.
  - exists (dec_qty q nb), (dec_qty q s).
    rewrite list_lookup_alter_ne, list_lookup_alter_eq, Hrb by done.
    rewrite list_lookup_alter_eq, list_lookup_alter_ne, Hs by done. simpl.
    repeat split; auto; lia.
Qed.

Lemma replacement_match_respects_pairing_rule_witness :
  let orders := [ mkTrade 0 "buy" "X" 100 7 10 10 0;
                  mkTrade 2 "buy" "X" 40 4 10 4 0;
                  mkTrade 5 "sell" "X" 60 0 20 3 0 ] in
  let matches := [ mkMatch 0 2 3 30 5 false ] in
  let out := adjust_match matches orders (Some 1) (Some 2) (Some 2) in
  exists k m new,
    select_match matches (Some 1) = Some (k, m) /\
    out.1.1 = <[k := new]> matches /\
    sell new = sell m /\ m_qty new <= 2 /\
    exists b s,
      out.1.2 !! buy new = Some b /\ out.1.2 !! sell new = Some s /\
      order_type b = "buy" /\ ticker b = ticker s /\ date b <= date s /\
      new = Match_init (buy new) (sell new) b s (m_qty new) /\
      (buy new <> sell new -> 0 <= qty b /\ 0 <= qty s).
Proof.
  intros orders matches.
  apply (replacement_match_respects_pairing_rule matches orders
           (Some 1) (Some 2) 2).
  vm_compute. reflexivity.
Defined.

Lemma dec_inc_qty (q : Z) (t : Trade) : dec_qty q (inc_qty q t) = t.
Proof.
  destruct t. unfold dec_qty, inc_qty, set_qty. simpl. f_equal. lia.
Qed.

Lemma rollback_undone (m : Match) (orders : list Trade) :
  buy m <> sell m ->
  alter (dec_qty (m_qty m)) (sell m)
    (alter (dec_qty (m_qty m)) (buy m) (rollback m orders)) = orders.
Proof.
  intros Hne. unfold rollback. apply list_eq. intros i.
  destruct (decide (i = sell m)) as [->|Hs];
    [|destruct (decide (i = buy m)) as [->|Hb]].
  - rewrite list_lookup_alter_eq, list_lookup_alter_ne by done.
    rewrite list_lookup_alter_eq, list_lookup_alter_ne by done.
    destruct (orders !! sell m) as [t|]; [|done]. simpl.
    by rewrite dec_inc_qty.
  - rewrite list_lookup_alter_ne, list_lookup_alter_eq by done.
    rewrite list_lookup_alter_ne, list_lookup_alter_eq by done.
    destruct (orders !! buy m) as [t|]; [|done]. simpl.
    by rewrite dec_inc_qty.
  - by rewrite !list_lookup_alter_ne.
Qed.

(** X23.  Undo and redo: selecting a match and then picking its own buy and its
    own quantity again leaves the matches and the orders exactly as they
    were, when the match is the one built from its two trades and these had
    no negative quantity left. *)
Theorem redoing_the_same_match_changes_nothing
    (matches : list Match) (orders : list Trade)
    (choice_in new_choice_in new_qty_in : option Z)
    (k : nat) (m : Match) (b' s' : Trade) :
  select_match matches choice_in = Some (k, m) ->
  rollback m orders !! sell m = Some s' ->
  pick_buy (buy_candidates (rollback m orders) s') new_choice_in new_qty_in
    = Some (buy m, b', m_qty m) ->
  buy m <> sell m ->
  m = Match_init (buy m) (sell m) b' s' (m_qty m) ->
  m_qty m <= qty b' -> m_qty m <= qty s' ->
  adjust_match matches orders choice_in new_choice_in new_qty_in
  = (matches, orders, msg_updated).
Proof.
  intros Hsel Hs Hp Hne Hm Hqb Hqs. unfold adjust_match.
  rewrite Hsel, Hs, Hp.
  replace (Z.min (Z.min (m_qty m) (qty s')) (qty b')) with (m_qty m) by lia.
  rewrite <- Hm, (rollback_undone m orders Hne).
  rewrite list_insert_id by (by eapply select_match_lookup).
  reflexivity.
Qed.

Lemma redoing_the_same_match_changes_nothing_witness :
  let orders := [ mkTrade 0 "buy" "X" 100 7 10 10 0;
                  mkTrade 2 "buy" "X" 40 4 10 4 0;
                  mkTrade 5 "sell" "X" 60 0 20 3 0 ] in
  let matches := [ mkMatch 0 2 3 30 5 false ] in
  adjust_match matches orders (Some 1) (Some 1) (Some 3)
  = (matches, orders, msg_updated).
Proof.
  intros orders matches.
  apply (redoing_the_same_match_changes_nothing matches orders
           (Some 1) (Some 1) (Some 3) 0%nat (mkMatch 0 2 3 30 5 false)
           (mkTrade 0 "buy" "X" 100 10 10 10 0)
           (mkTrade 5 "sell" "X" 60 3 20 3 0)).
  - reflexivity.
  - reflexivity.
  - vm_compute. reflexivity.
  - simpl. lia.
  - vm_compute. reflexivity.
  - simpl. lia.
  - simpl. lia.
Defined.

